(** * cookie-monster: a session-storage style facade over a cookie line

    A shallow embedding of [index.js] (the [bake] factory and the four
    operations it returns) together with the parts of the JavaScript
    run-time the code calls: [String.prototype.indexOf], [slice] and
    [split], [encodeURIComponent] and [decodeURIComponent].

    Strings are sequences of UTF-16 code units, as in ECMAScript.  The
    operations of the library run in a small state-and-exception monad
    over the [doc] object's [cookie] field and the private state of the
    injected hooks. *)

From Stdlib Require Import String Ascii.
From Stdlib Require Import ZArith Bool Lia List Permutation.
Import ListNotations.

Local Open Scope Z_scope.

(* ================================================================== *)
(** * JavaScript strings *)
(* ================================================================== *)

(** A code unit is a 16-bit unsigned integer; a string is a finite
    sequence of code units. *)
Definition code_unit := Z.
Definition jsstring := list code_unit.

Definition is_code_unit (c : code_unit) : Prop := 0 <= c < 65536.
Definition is_string (s : jsstring) : Prop := Forall is_code_unit s.

(** ASCII literals. *)
Definition js (s : String.string) : jsstring :=
  map (fun a => Z.of_N (Ascii.N_of_ascii a)) (String.list_ascii_of_string s).
Arguments js s%_string.

Fixpoint jsstring_eqb (a b : jsstring) : bool :=
  match a, b with
  | [], [] => true
  | x :: a', y :: b' => (x =? y) && jsstring_eqb a' b'
  | _, _ => false
  end.

(** ** [String.prototype.indexOf] *)

Fixpoint starts_with (pat s : jsstring) : bool :=
  match pat, s with
  | [], _ => true
  | p :: pat', c :: s' => (p =? c) && starts_with pat' s'
  | _ :: _, [] => false
  end.

Fixpoint index_from (pat s : jsstring) (i : Z) : Z :=
  if starts_with pat s then i
  else match s with
       | [] => -1
       | _ :: rest => index_from pat rest (i + 1)
       end.

(** [s.indexOf(pat)]: the smallest index at which [pat] occurs, or [-1]. *)
Definition indexOf (s pat : jsstring) : Z := index_from pat s 0.

(** ** [String.prototype.slice] *)

(** A relative index is counted from the end when negative and clamped
    to [0 .. len]. *)
Definition clamp_index (len i : Z) : Z :=
  if i <? 0 then Z.max (len + i) 0 else Z.min i len.

(** [s.slice(start, end)]; [None] stands for an omitted [end]. *)
Definition slice (s : jsstring) (start : Z) (end_ : option Z) : jsstring :=
  let len := Z.of_nat (length s) in
  let from := clamp_index len start in
  let to := match end_ with
            | None => len
            | Some e => clamp_index len e
            end in
  firstn (Z.to_nat (Z.max (to - from) 0)) (skipn (Z.to_nat from) s).

(** ** [String.prototype.split] with a string separator *)

(** Puts a code unit in front of the first piece. *)
Definition cons_head (c : code_unit) (pieces : list jsstring) : list jsstring :=
  match pieces with
  | [] => [[c]]
  | h :: t => (c :: h) :: t
  end.

(** [skip] counts the code units of a separator occurrence that are
    still to be passed over. *)
Fixpoint split_go (sep : jsstring) (skip : nat) (s : jsstring) : list jsstring :=
  match s with
  | [] => [[]]
  | c :: rest =>
      match skip with
      | S k => split_go sep k rest
      | O => if starts_with sep s
             then [] :: split_go sep (length sep - 1) rest
             else cons_head c (split_go sep O rest)
      end
  end.

(** [s.split(sep)] without a limit.  An empty separator splits between
    all code units. *)
Definition split (s sep : jsstring) : list jsstring :=
  match sep with
  | [] => map (fun c => [c]) s
  | _ :: _ => split_go sep O s
  end.

(** ** [String.prototype.split] with the pattern [/;\s*/] *)

(** The class [\s]: WhiteSpace and LineTerminator code points. *)
Definition is_whitespace (c : code_unit) : bool :=
  ((9 <=? c) && (c <=? 13)) || (c =? 32) || (c =? 160) || (c =? 5760)
  || ((8192 <=? c) && (c <=? 8202)) || (c =? 8232) || (c =? 8233)
  || (c =? 8239) || (c =? 8287) || (c =? 12288) || (c =? 65279).

(** A match of [/;\s*/] is a semicolon with the longest run of white
    space behind it, so it is never empty.  [in_sep] says that the scan
    is inside such a run.  The implicit limit of [2^32 - 1] pieces is
    beyond the length of any string and is left out. *)
Fixpoint splitter_go (in_sep : bool) (s : jsstring) : list jsstring :=
  match s with
  | [] => [[]]
  | c :: rest =>
      if in_sep && is_whitespace c then splitter_go true rest
      else if c =? 59 then [] :: splitter_go true rest
      else cons_head c (splitter_go false rest)
  end.

(** [s.split(splitter)] where [splitter = /;\s*/]. *)
Definition split_splitter (s : jsstring) : list jsstring := splitter_go false s.

(* ================================================================== *)
(** * JavaScript values *)
(* ================================================================== *)

(** A Number, as far as this program can tell one from another: the
    string [Number::toString] prints for it (["42"], ["1.5"], ["1e+21"],
    ["NaN"]) and whether [ToBoolean] holds of it (it does not of [+0],
    [-0] and [NaN]).  The program does no arithmetic. *)
Record number : Type := {
  number_string : jsstring;
  number_truthy : bool
}.

(** The number [42]. *)
Definition forty_two : number :=
  {| number_string := js "42"; number_truthy := true |}.

(** Primitive values. *)
Inductive prim : Type :=
| PUndefined
| PNull
| PBool (b : bool)
| PNum (n : number)
| PStr (s : jsstring).

(** A value is a primitive or a plain, extensible object: its own
    string-keyed data properties in insertion order, every property
    holding a primitive.  Functions, symbols, bigints and nested objects
    are not part of the model. *)
Inductive jsval : Type :=
| VPrim (p : prim)
| VObj (props : list (jsstring * prim)).

Abbreviation VUndefined := (VPrim PUndefined).
Abbreviation VNull := (VPrim PNull).
Abbreviation VBool b := (VPrim (PBool b)).
Abbreviation VNum n := (VPrim (PNum n)).
Abbreviation VStr s := (VPrim (PStr s)).

Inductive exn : Type :=
| URIError
| TypeError
| Thrown (v : jsval).

(** The outcome of evaluating an expression: a value or an exception. *)
Inductive completion (A : Type) : Type :=
| Return (a : A)
| Throw (e : exn).
Arguments Return {A} a.
Arguments Throw {A} e.

Definition cbind {A B} (c : completion A) (f : A -> completion B) : completion B :=
  match c with
  | Return a => f a
  | Throw e => Throw e
  end.

Definition cmap {A B} (f : A -> B) (c : completion A) : completion B :=
  cbind c (fun a => Return (f a)).

Definition typeof (v : jsval) : jsstring :=
  match v with
  | VPrim PUndefined => js "undefined"
  | VPrim PNull => js "object"
  | VPrim (PBool _) => js "boolean"
  | VPrim (PNum _) => js "number"
  | VPrim (PStr _) => js "string"
  | VObj _ => js "object"
  end.

Definition ToBoolean (v : jsval) : bool :=
  match v with
  | VPrim PUndefined => false
  | VPrim PNull => false
  | VPrim (PBool b) => b
  | VPrim (PNum n) => number_truthy n
  | VPrim (PStr s) => negb (jsstring_eqb s [])
  | VObj _ => true
  end.

Definition prim_to_string (p : prim) : jsstring :=
  match p with
  | PUndefined => js "undefined"
  | PNull => js "null"
  | PBool true => js "true"
  | PBool false => js "false"
  | PNum n => number_string n
  | PStr s => s
  end.

(** Own-property lookup.  The names the library asks for ([cookie],
    [expires], [path], [domain], [secure]) are not on [Object.prototype],
    so [in] and property reads come down to the own properties. *)
Fixpoint get_own (name : jsstring) (props : list (jsstring * prim)) : option prim :=
  match props with
  | [] => None
  | (k, v) :: rest => if jsstring_eqb k name then Some v else get_own name rest
  end.

Definition has_own (name : jsstring) (props : list (jsstring * prim)) : bool :=
  match get_own name props with
  | Some _ => true
  | None => false
  end.

(** [o.name]: a missing property reads as [undefined]. *)
Definition get_prop (name : jsstring) (props : list (jsstring * prim)) : prim :=
  match get_own name props with
  | Some v => v
  | None => PUndefined
  end.

(** [ToString]: an object without a [toString] of its own prints through
    [Object.prototype.toString]; an own [toString] in this model is a
    primitive and so not callable, which leaves no way to a primitive. *)
Definition ToString (v : jsval) : completion jsstring :=
  match v with
  | VPrim p => Return (prim_to_string p)
  | VObj props =>
      if has_own (js "toString") props then Throw TypeError
      else Return (js "[object Object]")
  end.

(** [name === v] for a string [name]. *)
Definition strict_eq_string (name : jsstring) (v : jsval) : bool :=
  match v with
  | VPrim (PStr s) => jsstring_eqb name s
  | _ => false
  end.

(* ================================================================== *)
(** * [encodeURIComponent] and [decodeURIComponent] *)
(* ================================================================== *)

Definition in_range (lo hi c : Z) : bool := (lo <=? c) && (c <=? hi).

(** ** Encoding (ECMA-262, Encode) *)

Definition is_alpha (c : code_unit) : bool := in_range 65 90 c || in_range 97 122 c.
Definition is_digit (c : code_unit) : bool := in_range 48 57 c.

(** uriMark: one of [- _ . ! ~ * ' ( )]. *)
Definition is_mark (c : code_unit) : bool :=
  (c =? 45) || (c =? 95) || (c =? 46) || (c =? 33) || (c =? 126)
  || (c =? 42) || (c =? 39) || (c =? 40) || (c =? 41).

(** The code units [encodeURIComponent] leaves as they are. *)
Definition uriUnreserved (c : code_unit) : bool := is_alpha c || is_digit c || is_mark c.

Definition is_leading_surrogate (c : code_unit) : bool := in_range 55296 56319 c.
Definition is_trailing_surrogate (c : code_unit) : bool := in_range 56320 57343 c.

Definition UTF16SurrogatePairToCodePoint (lead trail : code_unit) : Z :=
  (lead - 55296) * 1024 + (trail - 56320) + 65536.

(** The UTF-8 octets of a code point. *)
Definition utf8_encode (cp : Z) : list Z :=
  if cp <? 128 then [cp]
  else if cp <? 2048 then [192 + cp / 64; 128 + cp mod 64]
  else if cp <? 65536 then
    [224 + cp / 4096; 128 + (cp / 64) mod 64; 128 + cp mod 64]
  else
    [240 + cp / 262144; 128 + (cp / 4096) mod 64; 128 + (cp / 64) mod 64;
     128 + cp mod 64].

(** An upper-case hexadecimal digit. *)
Definition hex_digit (d : Z) : code_unit := if d <? 10 then 48 + d else 55 + d.

(** ["%XY"] for one octet. *)
Definition escape_octet (b : Z) : jsstring := [37; hex_digit (b / 16); hex_digit (b mod 16)].

Definition escape_code_point (cp : Z) : jsstring := flat_map escape_octet (utf8_encode cp).

(** [Encode(string, unescapedSet)]: an unpaired surrogate is a URIError. *)
Fixpoint Encode (unescaped : code_unit -> bool) (s : jsstring) : completion jsstring :=
  match s with
  | [] => Return []
  | c :: rest =>
      if unescaped c then cmap (cons c) (Encode unescaped rest)
      else if is_leading_surrogate c then
        match rest with
        | c2 :: rest' =>
            if is_trailing_surrogate c2
            then cmap (app (escape_code_point (UTF16SurrogatePairToCodePoint c c2)))
                      (Encode unescaped rest')
            else Throw URIError
        | [] => Throw URIError
        end
      else if is_trailing_surrogate c then Throw URIError
      else cmap (app (escape_code_point c)) (Encode unescaped rest)
  end.

Definition encodeURIComponent (uriComponent : jsval) : completion jsstring :=
  cbind (ToString uriComponent) (Encode uriUnreserved).

(** ** Decoding (ECMA-262, Decode) *)

Definition hex_value (c : code_unit) : option Z :=
  if in_range 48 57 c then Some (c - 48)
  else if in_range 65 70 c then Some (c - 55)
  else if in_range 97 102 c then Some (c - 87)
  else None.

(** Reads one ["%XY"] at the front of [s]: the octet and what follows. *)
Definition parse_escape (s : jsstring) : option (Z * jsstring) :=
  match s with
  | p :: h1 :: h2 :: rest =>
      if p =? 37 then
        match hex_value h1, hex_value h2 with
        | Some a, Some b => Some (16 * a + b, rest)
        | _, _ => None
        end
      else None
  | _ => None
  end.

(** Reads [n] escapes in a row. *)
Fixpoint parse_escapes (n : nat) (s : jsstring) : option (list Z * jsstring) :=
  match n with
  | O => Some ([], s)
  | S n' =>
      match parse_escape s with
      | Some (b, rest) =>
          match parse_escapes n' rest with
          | Some (bs, rest') => Some (b :: bs, rest')
          | None => None
          end
      | None => None
      end
  end.

(** The number of leading 1 bits of an octet. *)
Definition leading_ones (b : Z) : nat :=
  if b <? 128 then 0
  else if b <? 192 then 1
  else if b <? 224 then 2
  else if b <? 240 then 3
  else if b <? 248 then 4
  else if b <? 252 then 5
  else if b <? 254 then 6
  else if b <? 255 then 7
  else 8.

(** The well-formed UTF-8 byte sequences of more than one octet (Unicode,
    table 3-7) and the code point each one stands for. *)
Definition utf8_decode (octets : list Z) : option Z :=
  match octets with
  | [b0; b1] =>
      if in_range 194 223 b0 && in_range 128 191 b1
      then Some ((b0 - 192) * 64 + (b1 - 128)) else None
  | [b0; b1; b2] =>
      if ((in_range 224 224 b0 && in_range 160 191 b1)
          || (in_range 225 236 b0 && in_range 128 191 b1)
          || (in_range 237 237 b0 && in_range 128 159 b1)
          || (in_range 238 239 b0 && in_range 128 191 b1))
         && in_range 128 191 b2
      then Some ((b0 - 224) * 4096 + (b1 - 128) * 64 + (b2 - 128)) else None
  | [b0; b1; b2; b3] =>
      if ((in_range 240 240 b0 && in_range 144 191 b1)
          || (in_range 241 243 b0 && in_range 128 191 b1)
          || (in_range 244 244 b0 && in_range 128 143 b1))
         && in_range 128 191 b2 && in_range 128 191 b3
      then Some ((b0 - 240) * 262144 + (b1 - 128) * 4096 + (b2 - 128) * 64 + (b3 - 128))
      else None
  | _ => None
  end.

Definition UTF16EncodeCodePoint (cp : Z) : jsstring :=
  if cp <=? 65535 then [cp]
  else [(cp - 65536) / 1024 + 55296; (cp - 65536) mod 1024 + 56320].

(** [Decode(string, reservedSet)] with the empty reserved set.  Every
    failure of the standard's loop (a cut-off escape, a digit that is not
    hexadecimal, a first octet with one or more than four leading 1 bits,
    a missing continuation escape, octets that are not well-formed UTF-8)
    is the same URIError.  Each round consumes at least one code unit, so
    [fuel = length s] rounds are enough. *)
Fixpoint Decode_loop (fuel : nat) (s : jsstring) : completion jsstring :=
  match fuel with
  | O => Return []
  | S fuel' =>
      match s with
      | [] => Return []
      | c :: rest =>
          if c =? 37 then
            match parse_escape s with
            | None => Throw URIError
            | Some (b, after) =>
                let n := leading_ones b in
                if (n =? 0)%nat then cmap (cons b) (Decode_loop fuel' after)
                else if (n =? 1)%nat || (4 <? n)%nat then Throw URIError
                else
                  match parse_escapes (n - 1) after with
                  | None => Throw URIError
                  | Some (bs, after') =>
                      match utf8_decode (b :: bs) with
                      | None => Throw URIError
                      | Some cp =>
                          cmap (app (UTF16EncodeCodePoint cp))
                               (Decode_loop fuel' after')
                      end
                  end
            end
          else cmap (cons c) (Decode_loop fuel' rest)
      end
  end.

Definition Decode (s : jsstring) : completion jsstring := Decode_loop (length s) s.

Definition decodeURIComponent (encodedURIComponent : jsval) : completion jsstring :=
  cbind (ToString encodedURIComponent) Decode.

(* ================================================================== *)
(** * The cookie store of [bake] *)
(* ================================================================== *)

(** The second argument of the [write] hook. *)
Record meta : Type := {
  meta_remove : bool;
  meta_value : jsstring;
  meta_opts : jsval;
  meta_key : jsval
}.

(** The date [removeItem] expires a cookie at. *)
Definition expired : jsstring := js "=;expires=Thu, 01 Jan 1970 00:00:01 GMT;".

(** [bake]'s treatment of its [doc] argument, up to the [cookie] line the
    store starts from.  [document] is the [cookie] line of a global
    [document] when there is one with a string-valued [cookie].  A truthy
    primitive other than a string cannot take the [cookie] field the
    strict-mode assignment tries to create. *)
Definition bake_doc (document : option jsstring) (doc : jsval) : completion jsstring :=
  if negb (ToBoolean doc) then
    Return (match document with
            | Some line => line
            | None => []
            end)
  else
    match doc with
    | VPrim (PStr line) => Return line
    | VObj props =>
        Return (match get_prop (js "cookie") props with
                | PStr line => line
                | _ => []
                end)
    | VPrim _ => Throw TypeError
    end.

Section Bake.

(** The state the injected hooks keep for themselves. *)
Variable H : Type.

(** What the program and its hooks can change: [doc.cookie] and the
    hooks' own state. *)
Record heap : Type := {
  doc_cookie : jsstring;
  hook_state : H
}.

(** [write_calls] is a ghost log of the calls of [write], oldest first;
    no hook can reach it. *)
Record world : Type := {
  world_heap : heap;
  write_calls : list (jsstring * meta)
}.

Definition hook (A : Type) : Type := heap -> completion A * heap.

(** The [options] argument of [bake]; [None] is a hook left out, and a
    missing [options] is the record without hooks.  A hook runs on the
    heap and may throw.  The [read] hook hands over an array of strings. *)
Record options : Type := {
  options_read : option (hook (list jsstring));
  options_write : option (jsstring -> meta -> hook jsval)
}.

(** State and exceptions. *)
Definition M (A : Type) : Type := world -> completion A * world.

Definition ret {A} (a : A) : M A := fun w => (Return a, w).

Definition bind {A B} (c : M A) (f : A -> M B) : M B :=
  fun w => match c w with
           | (Return a, w') => f a w'
           | (Throw e, w') => (Throw e, w')
           end.

Definition lift {A} (c : completion A) : M A := fun w => (c, w).

Definition call_hook {A} (h : hook A) : M A :=
  fun w => let (r, hp) := h (world_heap w) in
           (r, {| world_heap := hp; write_calls := write_calls w |}).

Definition get_cookie : M jsstring :=
  fun w => (Return (doc_cookie (world_heap w)), w).

Definition set_cookie (line : jsstring) : M unit :=
  fun w => (Return tt,
            {| world_heap := {| doc_cookie := line;
                                hook_state := hook_state (world_heap w) |};
               write_calls := write_calls w |}).

Definition log_write (cookie : jsstring) (m : meta) : M unit :=
  fun w => (Return tt,
            {| world_heap := world_heap w;
               write_calls := write_calls w ++ [(cookie, m)] |}).

Local Notation "x <- c ;; k" := (bind c (fun x => k))
  (at level 61, c at next level, right associativity).
Local Notation "c ;; k" := (bind c (fun _ => k))
  (at level 61, right associativity).

Variable opt : options.

(** [read()] *)
Definition read : M (list jsstring) :=
  match options_read opt with
  | Some f => call_hook f
  | None => line <- get_cookie ;; ret (split_splitter line)
  end.

(** [write(cookie, meta)]; the assignment [doc.cookie = cookie] has the
    assigned string for its value. *)
Definition write (cookie : jsstring) (m : meta) : M jsval :=
  log_write cookie m ;;
  match options_write opt with
  | Some f => call_hook (f cookie m)
  | None => set_cookie cookie ;; ret (VStr cookie)
  end.

(** The loop of [getItem] over the entries that are left. *)
Fixpoint getItem_loop (key : jsval) (cookies : list jsstring) : completion jsval :=
  match cookies with
  | [] => Return VUndefined
  | cookie :: rest =>
      let index := indexOf cookie (js "=") in
      cbind (decodeURIComponent (VStr (slice cookie 0 (Some index)))) (fun name =>
      if strict_eq_string name key
      then cmap (fun v => VStr v)
                (decodeURIComponent (VStr (slice cookie (index + 1) None)))
      else getItem_loop key rest)
  end.

(** [getItem(key)] *)
Definition getItem (key : jsval) : M jsval :=
  cookies <- read ;;
  lift (getItem_loop key cookies).

(** [setItem(key, value, opts)].  The operator [in] throws a TypeError
    when [opts] is a truthy primitive. *)
Definition setItem (key value opts : jsval) : M jsval :=
  if negb (jsstring_eqb (typeof key) (js "string"))
     || negb (jsstring_eqb (typeof value) (js "string"))
  then ret (VBool false)
  else
    let opts := if negb (ToBoolean opts) then VObj [] else opts in
    value <- lift (encodeURIComponent value) ;;
    key <- lift (encodeURIComponent key) ;;
    match opts with
    | VPrim _ => lift (Throw TypeError)
    | VObj props =>
        let cookie := key ++ js "=" ++ value in
        let cookie :=
          if has_own (js "expires") props
          then cookie ++ js "; expires=" ++ prim_to_string (get_prop (js "expires") props)
          else cookie in
        let cookie :=
          if has_own (js "path") props
          then cookie ++ js "; path=" ++ prim_to_string (get_prop (js "path") props)
          else cookie in
        let cookie :=
          if has_own (js "domain") props
          then cookie ++ js "; domain=" ++ prim_to_string (get_prop (js "domain") props)
          else cookie in
        let cookie :=
          if ToBoolean (VPrim (get_prop (js "secure") props))
          then cookie ++ js "; secure"
          else cookie in
        write cookie {| meta_remove := false;
                        meta_value := value;
                        meta_opts := opts;
                        meta_key := VStr key |}
    end.

(** [removeItem(key)]; [key + '...'] converts [key] to a string. *)
Definition removeItem (key : jsval) : M jsval :=
  name <- lift (ToString key) ;;
  write (name ++ expired)
        {| meta_remove := true;
           meta_value := [];
           meta_opts := VObj [];
           meta_key := key |}.

(** [array[0]] *)
Definition first_element (array : list jsstring) : jsval :=
  match array with
  | [] => VUndefined
  | x :: _ => VStr x
  end.

(** The loop of [clear] over the entries that are left. *)
Fixpoint clear_loop (cookies : list jsstring) : M jsval :=
  match cookies with
  | [] => ret VUndefined
  | cookie :: rest =>
      name <- lift (decodeURIComponent (first_element (split cookie (js "=")))) ;;
      removeItem (VStr name) ;;
      clear_loop rest
  end.

(** [clear()] *)
Definition clear : M jsval :=
  cookies <- read ;;
  clear_loop cookies.

End Bake.

Arguments doc_cookie {H} _.
Arguments hook_state {H} _.
Arguments world_heap {H} _.
Arguments write_calls {H} _.
Arguments options_read {H} _.
Arguments options_write {H} _.
Arguments ret {H A} _ _.
Arguments bind {H A B} _ _ _.
Arguments lift {H A} _ _.
Arguments call_hook {H A} _ _.
Arguments read {H} _ _.
Arguments write {H} _ _ _ _.
Arguments getItem {H} _ _ _.
Arguments setItem {H} _ _ _ _ _.
Arguments removeItem {H} _ _ _.
Arguments clear_loop {H} _ _ _.
Arguments clear {H} _ _.

(** A store without hooks. *)
Definition no_hooks {H : Type} : options H :=
  {| options_read := None; options_write := None |}.

(** The world [bake(doc, options)] starts in where there is no global
    [document]: the store is then on a plain object, whose [cookie] is a
    data property.  A store bound to the host's [document] reads and
    assigns [cookie] through the host's accessor and is not a world of
    this file. *)
Definition bake {H : Type} (doc : jsval) (h : H) : completion (world H) :=
  cmap (fun line => {| world_heap := {| doc_cookie := line; hook_state := h |};
                       write_calls := [] |})
       (bake_doc None doc).

Notation "x <- c ;; k" := (bind c (fun x => k))
  (at level 61, c at next level, right associativity).
Notation "c ;; k" := (bind c (fun _ => k))
  (at level 61, right associativity).

(* ================================================================== *)
(** * Vocabulary of the specification *)
(* ================================================================== *)

Definition is_octet (b : Z) : Prop := 0 <= b < 256.

(** A code point that is not a surrogate. *)
Definition is_scalar (cp : Z) : Prop :=
  0 <= cp < 1114112 /\ ~ (55296 <= cp <= 57343).

(** A code unit that is neither [;] nor [=]. *)
Definition plain (c : code_unit) : Prop := c <> 59 /\ c <> 61.

(** A string is well formed when every surrogate in it is half of a
    pair; these are the strings [Encode] accepts. *)
Fixpoint well_formed (s : jsstring) : bool :=
  match s with
  | [] => true
  | c :: rest =>
      if is_leading_surrogate c then
        match rest with
        | c2 :: rest' => is_trailing_surrogate c2 && well_formed rest'
        | [] => false
        end
      else negb (is_trailing_surrogate c) && well_formed rest
  end.

(** The segment a present option adds to the cookie. *)
Definition attribute (name : jsstring) (props : list (jsstring * prim)) : jsstring :=
  match get_own name props with
  | Some v => js "; " ++ name ++ js "=" ++ prim_to_string v
  | None => []
  end.

Definition secure_flag (props : list (jsstring * prim)) : jsstring :=
  if ToBoolean (VPrim (get_prop (js "secure") props)) then js "; secure" else [].

(** The formatted cookie: the encoded pair and then the attributes in
    the order [expires], [path], [domain], [secure]. *)
Definition cookie_string (key value : jsstring) (props : list (jsstring * prim)) : jsstring :=
  key ++ js "=" ++ value
  ++ attribute (js "expires") props
  ++ attribute (js "path") props
  ++ attribute (js "domain") props
  ++ secure_flag props.

(** The name and the value [getItem] reads off an entry. *)
Definition entry_name (cookie : jsstring) : completion jsstring :=
  decodeURIComponent (VStr (slice cookie 0 (Some (indexOf cookie (js "="))))).

Definition entry_value (cookie : jsstring) : completion jsstring :=
  decodeURIComponent (VStr (slice cookie (indexOf cookie (js "=") + 1) None)).


(** The part of an entry before its first [=]; all of it when there is none. *)
Fixpoint before_equals (cookie : jsstring) : jsstring :=
  match cookie with
  | [] => []
  | c :: rest => if c =? 61 then [] else c :: before_equals rest
  end.

(** Decodes every string of a list, stopping at the first failure. *)
Fixpoint decode_all (encoded : list jsstring) : completion (list jsstring) :=
  match encoded with
  | [] => Return []
  | s :: rest =>
      cbind (Decode s) (fun name => cmap (cons name) (decode_all rest))
  end.

(** What [removeItem(name)] hands to [write]. *)
Definition removal (name : jsstring) : jsstring * meta :=
  (name ++ js "=;expires=Thu, 01 Jan 1970 00:00:01 GMT;",
   {| meta_remove := true; meta_value := []; meta_opts := VObj [];
      meta_key := VStr name |}).

(** A [write] hook that completes normally on every call. *)
Definition returns_normally {H} (write_hook : option (jsstring -> meta -> hook H jsval)) : Prop :=
  match write_hook with
  | Some f => forall cookie m hp, exists v, fst (f cookie m hp) = Return v
  | None => True
  end.

(** A [write] hook that only collects its calls. *)
Definition collect : jsstring -> meta -> hook (list (jsstring * meta)) jsval :=
  fun cookie m hp =>
    (Return VUndefined,
     {| doc_cookie := doc_cookie hp; hook_state := hook_state hp ++ [(cookie, m)] |}).

Definition collecting : options (list (jsstring * meta)) :=
  {| options_read := None; options_write := Some collect |}.

(** The world of a store on [line] before any call. *)
Definition seeded {H} (line : jsstring) (h : H) : world H :=
  {| world_heap := {| doc_cookie := line; hook_state := h |}; write_calls := [] |}.

(** A code unit [Encode] can put out: unreserved, or the percent sign. *)
Definition uri_char (c : code_unit) : Prop := uriUnreserved c = true \/ c = 37.

(** The cookie line of several entries, joined the way a cookie header
    joins them. *)
Fixpoint join_entries (entries : list jsstring) : jsstring :=
  match entries with
  | [] => []
  | e :: rest =>
      match rest with
      | [] => e
      | _ :: _ => e ++ js "; " ++ join_entries rest
      end
  end.

(** The value of the first pair with the key [key]. *)
Fixpoint lookup (key : jsstring) (pairs : list (jsstring * jsstring)) : option jsstring :=
  match pairs with
  | [] => None
  | (k, v) :: rest => if jsstring_eqb k key then Some v else lookup key rest
  end.

(** [entry] is the cookie [setItem(k, v)] formats for the pair [(k, v)]:
    the string it returns on a store without hooks. *)
Definition written (pair : jsstring * jsstring) (entry : jsstring) : Prop :=
  is_string (fst pair) /\ is_string (snd pair)
  /\ fst (setItem no_hooks (VStr (fst pair)) (VStr (snd pair)) VUndefined (seeded [] tt))
     = Return (VStr entry).

(** A [write] hook that leaves [doc.cookie] alone. *)
Definition keeps_cookie {H} (f : jsstring -> meta -> hook H jsval) : Prop :=
  forall cookie m hp, doc_cookie (snd (f cookie m hp)) = doc_cookie hp.

(** The names of the cookies in a log of [write] calls. *)
Definition cookie_names (calls : list (jsstring * meta)) : list jsstring :=
  map (fun call => before_equals (fst call)) calls.

(** An entry as [setItem] writes it: no semicolon, and a first code unit
    that is not white space. *)
Definition tidy (entry : jsstring) : Prop :=
  Forall (fun c => c <> 59) entry
  /\ exists c t, entry = c :: t /\ is_whitespace c = false.

(* ================================================================== *)
(** * Facts about strings *)
(* ================================================================== *)

Ltac dlia := Z.to_euclidean_division_equations; lia.

(** Decides one boolean comparison on [Z] in the goal after the other. *)
Ltac zcases :=
  repeat (match goal with
          | |- context [Z.ltb ?a ?b] => destruct (Z.ltb_spec a b); try dlia
          | |- context [Z.leb ?a ?b] => destruct (Z.leb_spec a b); try dlia
          | |- context [Z.eqb ?a ?b] => destruct (Z.eqb_spec a b); try dlia
          end; cbn [andb orb negb]).

Lemma in_range_true lo hi c : lo <= c <= hi -> in_range lo hi c = true.
Proof. unfold in_range. intros. zcases; try reflexivity. Qed.

Lemma in_range_spec lo hi c : in_range lo hi c = true <-> lo <= c <= hi.
Proof.
  unfold in_range. rewrite andb_true_iff, Z.leb_le, Z.leb_le. tauto.
Qed.

Lemma jsstring_eqb_eq a b : jsstring_eqb a b = true <-> a = b.
Proof.
  revert b. induction a as [|x a IH]; destruct b as [|y b]; simpl;
    try (split; (discriminate || reflexivity)).
  rewrite andb_true_iff, Z.eqb_eq, IH. split.
  - intros [-> ->]. reflexivity.
  - intros E. injection E. auto.
Qed.

Lemma jsstring_eqb_refl a : jsstring_eqb a a = true.
Proof. apply jsstring_eqb_eq. reflexivity. Qed.

Lemma jsstring_eqb_neq a b : a <> b -> jsstring_eqb a b = false.
Proof.
  intros N. destruct (jsstring_eqb a b) eqn:E; [|reflexivity].
  apply jsstring_eqb_eq in E. contradiction.
Qed.

(** A line without a semicolon is a single entry. *)
Lemma split_splitter_plain s :
  Forall (fun c => c <> 59) s -> split_splitter s = [s].
Proof.
  unfold split_splitter. induction 1 as [|c s Hc Hs IH]; simpl.
  - reflexivity.
  - destruct (Z.eqb_spec c 59); [contradiction|]. rewrite IH. reflexivity.
Qed.

Lemma index_from_found s1 s2 i :
  Forall (fun c => c <> 61) s1 ->
  index_from (js "=") (s1 ++ 61 :: s2) i = i + Z.of_nat (length s1).
Proof.
  intros F. revert i. change (js "=") with [61].
  induction F as [|c s1 Hc Hs IH]; intros i;
    cbn [app index_from starts_with length].
  - rewrite Z.eqb_refl. simpl. lia.
  - destruct (Z.eqb_spec 61 c); [congruence|]. cbn [andb].
    rewrite IH. lia.
Qed.

Lemma index_from_missing s i :
  Forall (fun c => c <> 61) s -> index_from (js "=") s i = -1.
Proof.
  intros F. revert i. change (js "=") with [61].
  induction F as [|c s Hc Hs IH]; intros i; cbn [index_from starts_with].
  - reflexivity.
  - destruct (Z.eqb_spec 61 c); [congruence|]. cbn [andb]. apply IH.
Qed.

Lemma slice_before s1 s2 :
  slice (s1 ++ 61 :: s2) 0 (Some (Z.of_nat (length s1))) = s1.
Proof.
  unfold slice, clamp_index. rewrite length_app. simpl length.
  replace (0 <? 0) with false by reflexivity.
  destruct (Z.ltb_spec (Z.of_nat (length s1)) 0); [lia|].
  rewrite Z.min_l, Z.min_l by lia. simpl skipn.
  rewrite Z.sub_0_r, Z.max_l, Nat2Z.id by lia.
  rewrite firstn_app, firstn_all, Nat.sub_diag. simpl. apply app_nil_r.
Qed.

Lemma slice_after s1 s2 :
  slice (s1 ++ 61 :: s2) (Z.of_nat (length s1) + 1) None = s2.
Proof.
  unfold slice, clamp_index. rewrite length_app. simpl length.
  destruct (Z.ltb_spec (Z.of_nat (length s1) + 1) 0); [lia|].
  rewrite Z.min_l by lia.
  replace (Z.to_nat (Z.of_nat (length s1) + 1)) with (length s1 + 1)%nat by lia.
  rewrite skipn_app, skipn_all2 by lia.
  replace (length s1 + 1 - length s1)%nat with 1%nat by lia. simpl.
  apply firstn_all2. unfold code_unit. lia.
Qed.

(** [slice(0, -1)] drops the last code unit and [slice(0)] nothing. *)
Lemma slice_drop_last s c : slice (s ++ [c]) 0 (Some (-1)) = s.
Proof.
  unfold slice, clamp_index. rewrite length_app. simpl length.
  replace (0 <? 0) with false by reflexivity.
  replace (-1 <? 0) with true by reflexivity.
  rewrite Z.min_l by lia. simpl skipn.
  replace (Z.to_nat (Z.max (Z.max (Z.of_nat (length s + 1) + -1) 0 - 0) 0))
    with (length s) by lia.
  rewrite firstn_app, firstn_all, Nat.sub_diag. simpl. apply app_nil_r.
Qed.

Lemma slice_all s : slice s 0 None = s.
Proof.
  unfold slice, clamp_index.
  replace (0 <? 0) with false by reflexivity.
  rewrite Z.min_l by lia. simpl skipn.
  apply firstn_all2. lia.
Qed.

(* ================================================================== *)
(** * Percent-encoding: decoding undoes encoding *)
(* ================================================================== *)

Lemma hex_value_digit d : 0 <= d < 16 -> hex_value (hex_digit d) = Some d.
Proof.
  intros Hd. unfold hex_value, hex_digit, in_range.
  zcases; f_equal; lia.
Qed.

Lemma parse_escape_octet b rest :
  is_octet b -> parse_escape (escape_octet b ++ rest) = Some (b, rest).
Proof.
  unfold is_octet. intros Hb. unfold escape_octet, parse_escape. cbn [app].
  rewrite Z.eqb_refl, !hex_value_digit by dlia.
  f_equal. f_equal. dlia.
Qed.

Lemma parse_escapes_octets bs rest :
  Forall is_octet bs ->
  parse_escapes (length bs) (flat_map escape_octet bs ++ rest) = Some (bs, rest).
Proof.
  induction 1 as [|b bs Hb Hbs IH]; cbn [length flat_map parse_escapes].
  - reflexivity.
  - rewrite <- app_assoc, parse_escape_octet, IH by assumption. reflexivity.
Qed.

Lemma utf8_encode_octets cp :
  0 <= cp < 1114112 -> Forall is_octet (utf8_encode cp).
Proof.
  intros Hcp. unfold utf8_encode, is_octet.
  zcases; repeat constructor; dlia.
Qed.

Lemma utf8_encode_ascii cp : 0 <= cp < 128 -> utf8_encode cp = [cp].
Proof. intros. unfold utf8_encode. zcases. reflexivity. Qed.

(** The first octet of a longer encoding announces its length. *)
Lemma utf8_encode_leading cp :
  128 <= cp < 1114112 ->
  exists b bs, utf8_encode cp = b :: bs /\ leading_ones b = S (length bs)
               /\ (1 <= length bs <= 3)%nat.
Proof.
  intros Hcp. unfold utf8_encode.
  zcases; eexists; eexists; (split; [reflexivity|]); unfold leading_ones;
    zcases; cbn [length]; lia.
Qed.

Lemma utf8_decode_encode cp :
  is_scalar cp -> 128 <= cp -> utf8_decode (utf8_encode cp) = Some cp.
Proof.
  intros [Hcp Hs] Hlo. unfold utf8_encode.
  zcases; unfold utf8_decode, in_range; zcases; f_equal; dlia.
Qed.

Lemma Decode_loop_percent fuel s :
  Decode_loop (S fuel) (37 :: s) =
  match parse_escape (37 :: s) with
  | None => Throw URIError
  | Some (b, after) =>
      let n := leading_ones b in
      if (n =? 0)%nat then cmap (cons b) (Decode_loop fuel after)
      else if (n =? 1)%nat || (4 <? n)%nat then Throw URIError
      else
        match parse_escapes (n - 1) after with
        | None => Throw URIError
        | Some (bs, after') =>
            match utf8_decode (b :: bs) with
            | None => Throw URIError
            | Some cp => cmap (app (UTF16EncodeCodePoint cp)) (Decode_loop fuel after')
            end
        end
  end.
Proof. reflexivity. Qed.

Lemma Decode_loop_literal fuel c s :
  c <> 37 -> Decode_loop (S fuel) (c :: s) = cmap (cons c) (Decode_loop fuel s).
Proof.
  intros Hc. cbn [Decode_loop]. destruct (Z.eqb_spec c 37); [contradiction|reflexivity].
Qed.

Lemma escape_octet_cons b tail :
  escape_octet b ++ tail = 37 :: hex_digit (b / 16) :: hex_digit (b mod 16) :: tail.
Proof. reflexivity. Qed.

(** One round of the loop reads back an escaped ASCII code unit. *)
Lemma Decode_loop_ascii c fuel rest :
  0 <= c < 128 ->
  Decode_loop (S fuel) (escape_octet c ++ rest) = cmap (cons c) (Decode_loop fuel rest).
Proof.
  intros Hc. rewrite escape_octet_cons, Decode_loop_percent, <- escape_octet_cons.
  rewrite parse_escape_octet by (unfold is_octet; lia).
  cbv zeta. replace (leading_ones c) with 0%nat; [reflexivity|].
  unfold leading_ones. zcases; try reflexivity.
Qed.

(** One round of the loop reads back a well-formed run of escapes. *)
Lemma Decode_loop_escapes b bs cp fuel rest :
  Forall is_octet (b :: bs) ->
  leading_ones b = S (length bs) ->
  (1 <= length bs <= 3)%nat ->
  utf8_decode (b :: bs) = Some cp ->
  Decode_loop (S fuel) (flat_map escape_octet (b :: bs) ++ rest) =
  cmap (app (UTF16EncodeCodePoint cp)) (Decode_loop fuel rest).
Proof.
  intros Hoct Hlead Hlen Hdec. inversion Hoct as [|? ? Hb Hbs]; subst.
  cbn [flat_map]. rewrite <- app_assoc.
  rewrite escape_octet_cons, Decode_loop_percent, <- escape_octet_cons.
  rewrite parse_escape_octet by assumption.
  cbv zeta. rewrite Hlead.
  replace (S (length bs) =? 0)%nat with false by reflexivity.
  replace (S (length bs) =? 1)%nat with false
    by (symmetry; apply Nat.eqb_neq; lia).
  replace (4 <? S (length bs))%nat with false
    by (symmetry; apply Nat.ltb_ge; lia).
  cbn [orb]. rewrite Nat.sub_succ, Nat.sub_0_r.
  rewrite parse_escapes_octets by assumption.
  rewrite Hdec. reflexivity.
Qed.

Lemma Decode_loop_code_point cp fuel rest :
  is_scalar cp ->
  Decode_loop (S fuel) (escape_code_point cp ++ rest) =
  cmap (app (UTF16EncodeCodePoint cp)) (Decode_loop fuel rest).
Proof.
  intros Hs. destruct (Z.lt_ge_cases cp 128) as [Hlo|Hhi].
  - destruct Hs as [[H0 _] _]. unfold escape_code_point.
    rewrite utf8_encode_ascii by lia. cbn [flat_map]. rewrite app_nil_r.
    rewrite Decode_loop_ascii by lia.
    unfold UTF16EncodeCodePoint. destruct (Z.leb_spec cp 65535); [reflexivity|lia].
  - pose proof Hs as [[_ Hup] _].
    destruct (utf8_encode_leading cp) as (b & bs & E & Hlead & Hlen); [lia|].
    unfold escape_code_point. rewrite E.
    apply Decode_loop_escapes; try assumption.
    + rewrite <- E. apply utf8_encode_octets. lia.
    + rewrite <- E. apply utf8_decode_encode; assumption.
Qed.

Lemma escape_code_point_length cp : (1 <= length (escape_code_point cp))%nat.
Proof.
  unfold escape_code_point, utf8_encode. zcases; cbn; lia.
Qed.

Lemma uriUnreserved_plain c : uriUnreserved c = true -> plain c /\ c <> 37.
Proof.
  intros U. unfold plain.
  repeat split; intros ->; discriminate U.
Qed.

Lemma hex_digit_plain d : 0 <= d < 16 -> plain (hex_digit d).
Proof. intros Hd. unfold hex_digit, plain. zcases; lia. Qed.

Lemma escape_code_point_plain cp :
  0 <= cp < 1114112 -> Forall plain (escape_code_point cp).
Proof.
  intros Hcp. unfold escape_code_point.
  pose proof (utf8_encode_octets cp Hcp) as Hoct.
  induction Hoct as [|b bs Hb Hbs IH]; cbn [flat_map].
  - constructor.
  - unfold is_octet in Hb. apply Forall_app. split; [|exact IH].
    unfold escape_octet. repeat constructor; try (apply hex_digit_plain; dlia);
      unfold plain; lia.
Qed.

Lemma surrogate_pair_scalar c c2 :
  is_leading_surrogate c = true -> is_trailing_surrogate c2 = true ->
  is_scalar (UTF16SurrogatePairToCodePoint c c2) /\
  UTF16EncodeCodePoint (UTF16SurrogatePairToCodePoint c c2) = [c; c2].
Proof.
  unfold is_leading_surrogate, is_trailing_surrogate.
  rewrite !in_range_spec. intros Hc Hc2.
  unfold is_scalar, UTF16SurrogatePairToCodePoint, UTF16EncodeCodePoint.
  split; [lia|]. zcases. f_equal; [|f_equal]; dlia.
Qed.

Lemma code_unit_scalar c :
  is_code_unit c -> is_leading_surrogate c = false -> is_trailing_surrogate c = false ->
  is_scalar c /\ UTF16EncodeCodePoint c = [c].
Proof.
  unfold is_code_unit, is_leading_surrogate, is_trailing_surrogate, in_range.
  intros Hc Hl Ht. unfold is_scalar, UTF16EncodeCodePoint.
  rewrite andb_false_iff, !Z.leb_gt in Hl, Ht.
  split; [lia|]. zcases; try reflexivity.
Qed.

Lemma cmap_Return_inv {A B} (f : A -> B) c b :
  cmap f c = Return b -> exists a, c = Return a /\ b = f a.
Proof.
  destruct c as [a|e]; cbn; intros E; [|discriminate].
  injection E as <-. eauto.
Qed.

(** What [Encode] yields, case by case. *)
Lemma Encode_cons_inv c rest e :
  Encode uriUnreserved (c :: rest) = Return e ->
  (uriUnreserved c = true /\
   exists e', Encode uriUnreserved rest = Return e' /\ e = c :: e')
  \/ (uriUnreserved c = false /\ is_leading_surrogate c = true /\
      exists c2 rest' e', rest = c2 :: rest' /\ is_trailing_surrogate c2 = true /\
        Encode uriUnreserved rest' = Return e' /\
        e = escape_code_point (UTF16SurrogatePairToCodePoint c c2) ++ e')
  \/ (uriUnreserved c = false /\ is_leading_surrogate c = false /\
      is_trailing_surrogate c = false /\
      exists e', Encode uriUnreserved rest = Return e' /\
        e = escape_code_point c ++ e').
Proof.
  cbn [Encode]. destruct (uriUnreserved c) eqn:U.
  - intros E. apply cmap_Return_inv in E as (e' & E1 & ->). left. eauto.
  - destruct (is_leading_surrogate c) eqn:L.
    + destruct rest as [|c2 rest']; [discriminate|].
      destruct (is_trailing_surrogate c2) eqn:T; [|discriminate].
      intros E. apply cmap_Return_inv in E as (e' & E1 & ->).
      right. left. repeat split. exists c2, rest', e'. auto.
    + destruct (is_trailing_surrogate c) eqn:T; [discriminate|].
      intros E. apply cmap_Return_inv in E as (e' & E1 & ->).
      right. right. repeat split. eauto.
Qed.

Lemma Decode_loop_Encode n :
  forall s e fuel,
    (length s <= n)%nat -> is_string s ->
    Encode uriUnreserved s = Return e ->
    (length e <= fuel)%nat ->
    Decode_loop fuel e = Return s.
Proof.
  induction n as [|n IH]; intros s e fuel Hn Hs HE Hfuel.
  - destruct s; [|cbn in Hn; lia]. cbn in HE. injection HE as <-.
    destruct fuel; reflexivity.
  - destruct s as [|c rest].
    { cbn in HE. injection HE as <-. destruct fuel; reflexivity. }
    inversion Hs as [|? ? Hc Hrest]; subst. cbn [length] in Hn.
    apply Encode_cons_inv in HE
      as [(U & e' & E1 & ->)
         |[(U & L & c2 & rest' & e' & -> & T & E1 & ->)
          |(U & L & T & e' & E1 & ->)]].
    + destruct fuel as [|fuel]; [cbn in Hfuel; lia|]. cbn [length] in Hfuel.
      apply uriUnreserved_plain in U as [_ U37].
      rewrite Decode_loop_literal by assumption.
      rewrite (IH rest e' fuel) by (assumption || lia). reflexivity.
    + destruct (surrogate_pair_scalar c c2 L T) as [Hsc Hutf].
      pose proof (escape_code_point_length (UTF16SurrogatePairToCodePoint c c2)).
      destruct fuel as [|fuel]; [rewrite length_app in Hfuel; lia|].
      rewrite length_app in Hfuel.
      rewrite Decode_loop_code_point by assumption.
      inversion Hrest; subst. cbn [length] in Hn.
      rewrite (IH rest' e' fuel) by (assumption || lia).
      cbn. rewrite Hutf. reflexivity.
    + destruct (code_unit_scalar c Hc L T) as [Hsc Hutf].
      pose proof (escape_code_point_length c).
      destruct fuel as [|fuel]; [rewrite length_app in Hfuel; lia|].
      rewrite length_app in Hfuel.
      rewrite Decode_loop_code_point by assumption.
      rewrite (IH rest e' fuel) by (assumption || lia).
      cbn. rewrite Hutf. reflexivity.
Qed.

(** Decoding undoes encoding. *)
Lemma Decode_Encode s e :
  is_string s -> Encode uriUnreserved s = Return e -> Decode e = Return s.
Proof.
  intros Hs HE. unfold Decode.
  apply (Decode_loop_Encode (length s)); auto.
Qed.

Lemma Encode_plain n :
  forall s e,
    (length s <= n)%nat -> is_string s ->
    Encode uriUnreserved s = Return e -> Forall plain e.
Proof.
  induction n as [|n IH]; intros s e Hn Hs HE.
  - destruct s; [|cbn in Hn; lia]. cbn in HE. injection HE as <-. constructor.
  - destruct s as [|c rest].
    { cbn in HE. injection HE as <-. constructor. }
    inversion Hs as [|? ? Hc Hrest]; subst. cbn [length] in Hn.
    apply Encode_cons_inv in HE
      as [(U & e' & E1 & ->)
         |[(U & L & c2 & rest' & e' & -> & T & E1 & ->)
          |(U & L & T & e' & E1 & ->)]].
    + constructor; [apply uriUnreserved_plain; assumption|].
      apply (IH rest); (assumption || lia).
    + destruct (surrogate_pair_scalar c c2 L T) as [[Hsc _] _].
      inversion Hrest; subst. cbn [length] in Hn.
      apply Forall_app. split; [apply escape_code_point_plain; assumption|].
      apply (IH rest'); (assumption || lia).
    + apply Forall_app. split.
      * apply escape_code_point_plain. unfold is_code_unit in Hc. lia.
      * apply (IH rest); (assumption || lia).
Qed.

Lemma Encode_well_formed n :
  forall s, (length s <= n)%nat -> well_formed s = true ->
            exists e, Encode uriUnreserved s = Return e.
Proof.
  induction n as [|n IH]; intros s Hn W.
  - destruct s; [|cbn in Hn; lia]. exists []. reflexivity.
  - destruct s as [|c rest]; [exists []; reflexivity|].
    cbn [length] in Hn. cbn [well_formed] in W. cbn [Encode].
    destruct (is_leading_surrogate c) eqn:L.
    + destruct rest as [|c2 rest']; [discriminate|].
      apply andb_true_iff in W as [T W]. cbn [length] in Hn.
      destruct (IH rest') as [e' E']; [lia|assumption|].
      destruct (uriUnreserved c) eqn:U.
      * unfold uriUnreserved, is_alpha, is_digit, is_mark in U.
        unfold is_leading_surrogate in L. apply in_range_spec in L.
        exfalso. revert U. unfold in_range. zcases; discriminate.
      * rewrite T, E'. eexists. reflexivity.
    + apply andb_true_iff in W as [T W]. apply negb_true_iff in T.
      destruct (IH rest) as [e' E']; [lia|assumption|].
      rewrite T, E'. destruct (uriUnreserved c); eexists; reflexivity.
Qed.

(* ================================================================== *)
(** * The operations of the store *)
(* ================================================================== *)

Lemma Encode_accepts s :
  well_formed s = true -> exists e, Encode uriUnreserved s = Return e.
Proof. apply (Encode_well_formed (length s)). lia. Qed.

Lemma Encode_plain_string s e :
  is_string s -> Encode uriUnreserved s = Return e -> Forall plain e.
Proof. apply (Encode_plain (length s)). lia. Qed.

Lemma bind_Return {H A B} (a : A) (f : A -> M H B) : (x <- lift (Return a) ;; f x) = f a.
Proof. reflexivity. Qed.

Lemma append_attribute (cookie name : jsstring) literal props :
  literal = js "; " ++ name ++ js "=" ->
  (if has_own name props
   then cookie ++ literal ++ prim_to_string (get_prop name props)
   else cookie) = cookie ++ attribute name props.
Proof.
  intros ->. unfold has_own, get_prop, attribute.
  destruct (get_own name props).
  - rewrite <- !app_assoc. reflexivity.
  - rewrite app_nil_r. reflexivity.
Qed.

(** [setItem] on two strings and an options object. *)
Lemma setItem_strings {H} (o : options H) k v opts props ek ev :
  Encode uriUnreserved k = Return ek ->
  Encode uriUnreserved v = Return ev ->
  (if negb (ToBoolean opts) then VObj [] else opts) = VObj props ->
  setItem o (VStr k) (VStr v) opts =
  write o (cookie_string ek ev props)
        {| meta_remove := false; meta_value := ev;
           meta_opts := VObj props; meta_key := VStr ek |}.
Proof.
  intros Ek Ev Eo. unfold setItem. rewrite Eo.
  change (typeof (VStr k)) with (js "string").
  change (typeof (VStr v)) with (js "string").
  rewrite jsstring_eqb_refl. cbn [negb orb].
  unfold encodeURIComponent. cbn [ToString prim_to_string cbind].
  rewrite Ev, Ek, !bind_Return. cbv zeta.
  f_equal. unfold cookie_string.
  rewrite (append_attribute _ (js "expires")) by reflexivity.
  rewrite (append_attribute _ (js "path")) by reflexivity.
  rewrite (append_attribute _ (js "domain")) by reflexivity.
  unfold secure_flag.
  destruct (ToBoolean (VPrim (get_prop (js "secure") props)));
    rewrite <- ?app_assoc, ?app_nil_r; reflexivity.
Qed.

Lemma write_default {H} (o : options H) cookie m w :
  options_write o = None ->
  write o cookie m w =
  (Return (VStr cookie),
   {| world_heap := {| doc_cookie := cookie; hook_state := hook_state (world_heap w) |};
      write_calls := write_calls w ++ [(cookie, m)] |}).
Proof. intros E. unfold write. rewrite E. reflexivity. Qed.

Lemma write_hooked {H} (o : options H) f cookie m w :
  options_write o = Some f ->
  write o cookie m w =
  (fst (f cookie m (world_heap w)),
   {| world_heap := snd (f cookie m (world_heap w));
      write_calls := write_calls w ++ [(cookie, m)] |}).
Proof.
  intros E. unfold write. rewrite E. unfold bind, log_write, call_hook.
  cbn [world_heap write_calls].
  destruct (f cookie m (world_heap w)) as [[a|e] hp]; reflexivity.
Qed.

Lemma getItem_split {H} (o : options H) key w :
  options_read o = None ->
  getItem o key w = (getItem_loop key (split_splitter (doc_cookie (world_heap w))), w).
Proof. intros E. unfold getItem, read. rewrite E. reflexivity. Qed.

Lemma getItem_loop_single key name value :
  Forall (fun c => c <> 61) name ->
  getItem_loop key [name ++ 61 :: value] =
  cbind (Decode name) (fun n =>
    if strict_eq_string n key then cmap (fun v => VStr v) (Decode value)
    else Return VUndefined).
Proof.
  intros Hname. cbn [getItem_loop]. unfold indexOf.
  rewrite index_from_found by assumption. rewrite Z.add_0_l.
  rewrite slice_before, slice_after. reflexivity.
Qed.

Lemma Forall_plain_semicolon s : Forall plain s -> Forall (fun c => c <> 59) s.
Proof. apply Forall_impl. intros c [Hc _]. exact Hc. Qed.

Lemma Forall_plain_equals s : Forall plain s -> Forall (fun c => c <> 61) s.
Proof. apply Forall_impl. intros c [_ Hc]. exact Hc. Qed.


(* ================================================================== *)
(** * The claims of the specification *)
(* ================================================================== *)

(** C1 (amended).  On a store without hooks, for every key [k] and value
    [v] that are strings without an unpaired surrogate (so also with [;],
    [=], white space and characters outside ASCII in them),
    [setItem(k, v)] followed by [getItem(k)] returns exactly [v]. *)
Theorem setItem_getItem_round_trip {H} (w : world H) (k v : jsstring) :
  is_string k -> is_string v ->
  well_formed k = true -> well_formed v = true ->
  exists w',
    (setItem no_hooks (VStr k) (VStr v) VUndefined ;; getItem no_hooks (VStr k)) w
    = (Return (VStr v), w').
Proof.
  intros Hk Hv Wk Wv.
  destruct (Encode_accepts k Wk) as [ek Ek].
  destruct (Encode_accepts v Wv) as [ev Ev].
  pose proof (Encode_plain_string k ek Hk Ek) as Pk.
  pose proof (Encode_plain_string v ev Hv Ev) as Pv.
  unfold bind at 1.
  rewrite (setItem_strings no_hooks k v VUndefined [] ek ev Ek Ev eq_refl).
  rewrite write_default by reflexivity.
  rewrite getItem_split by reflexivity. cbn [world_heap doc_cookie].
  eexists. f_equal.
  unfold cookie_string, attribute, secure_flag. cbn [get_own get_prop ToBoolean].
  rewrite !app_nil_r. change (js "=" ++ ev) with (61 :: ev).
  rewrite split_splitter_plain.
  - rewrite getItem_loop_single by (apply Forall_plain_equals; assumption).
    rewrite (Decode_Encode k ek Hk Ek). cbn [cbind strict_eq_string].
    rewrite jsstring_eqb_refl, (Decode_Encode v ev Hv Ev). reflexivity.
  - apply Forall_app. split; [apply Forall_plain_semicolon; assumption|].
    constructor; [lia|apply Forall_plain_semicolon; assumption].
Qed.

Lemma setItem_getItem_round_trip_witness :
  exists w' : world unit,
    (setItem no_hooks (VStr (js "k")) (VStr [59; 61; 32; 233; 8364; 55357; 56832]) VUndefined ;;
     getItem no_hooks (VStr (js "k")))
      (seeded (js "a=1") tt)
    = (Return (VStr [59; 61; 32; 233; 8364; 55357; 56832]), w').
Proof.
  apply setItem_getItem_round_trip.
  - repeat constructor; unfold is_code_unit; cbn; lia.
  - repeat constructor; unfold is_code_unit; lia.
  - reflexivity.
  - reflexivity.
Defined.

(** C1 as stated fails: a value with an unpaired surrogate is a string,
    and [encodeURIComponent] throws a URIError on it, so [setItem] never
    writes and the round trip returns nothing. *)
Lemma setItem_lone_surrogate :
  is_string [55296]
  /\ fst ((setItem no_hooks (VStr (js "k")) (VStr [55296]) VUndefined ;;
          getItem no_hooks (VStr (js "k"))) (seeded [] tt))
     = Throw URIError
  /\ fst ((setItem no_hooks (VStr (js "k")) (VStr [55296]) VUndefined ;;
          getItem no_hooks (VStr (js "k"))) (seeded [] tt))
     <> Return (VStr [55296]).
Proof.
  split; [|split].
  - repeat constructor; unfold is_code_unit; lia.
  - reflexivity.
  - discriminate.
Qed.

Lemma typeof_string v : typeof v = js "string" <-> exists s, v = VStr s.
Proof.
  split.
  - destruct v as [[| |b|z|s]|props]; cbn; intros E; try discriminate E. eauto.
  - intros [s ->]. reflexivity.
Qed.

(** C2.  When [key] or [value] is not a string, [setItem] returns [false]
    and leaves the world as it was: no call of [write] is logged, the
    hooks' state is untouched and so is [doc.cookie]. *)
Theorem setItem_rejects_non_strings {H} (o : options H) (key value opts : jsval) (w : world H) :
  typeof key <> js "string" \/ typeof value <> js "string" ->
  setItem o key value opts w = (Return (VBool false), w).
Proof.
  intros Hnot. unfold setItem.
  destruct (jsstring_eqb (typeof key) (js "string")) eqn:Ek;
    destruct (jsstring_eqb (typeof value) (js "string")) eqn:Ev;
    cbn [negb orb]; try reflexivity.
  apply jsstring_eqb_eq in Ek, Ev. tauto.
Qed.

Lemma setItem_rejects_non_strings_witness :
  (typeof (VNum forty_two) <> js "string" \/ typeof (VStr (js "v")) <> js "string")
  /\ setItem collecting (VNum forty_two) (VStr (js "v")) VUndefined (seeded (js "a=1") [])
     = (Return (VBool false), seeded (js "a=1") []).
Proof.
  assert (Hnot : typeof (VNum forty_two) <> js "string" \/ typeof (VStr (js "v")) <> js "string")
    by (left; discriminate).
  split; [exact Hnot|].
  exact (setItem_rejects_non_strings collecting (VNum forty_two) (VStr (js "v")) VUndefined
           (seeded (js "a=1") []) Hnot).
Defined.





Lemma get_own_In name v props :
  NoDup (map fst props) -> In (name, v) props -> get_own name props = Some v.
Proof.
  induction props as [|[k x] props IH]; cbn [map fst get_own]; intros ND HIn.
  - destruct HIn.
  - inversion ND as [|? ? Hk ND']; subst. destruct HIn as [E|HIn].
    + injection E as -> ->. rewrite jsstring_eqb_refl. reflexivity.
    + rewrite jsstring_eqb_neq; [auto|].
      intros ->. apply Hk. apply (in_map fst) in HIn. exact HIn.
Qed.

Lemma get_own_Some name v props : get_own name props = Some v -> In (name, v) props.
Proof.
  induction props as [|[k x] props IH]; cbn [get_own]; [discriminate|].
  destruct (jsstring_eqb k name) eqn:E.
  - apply jsstring_eqb_eq in E. intros [= ->]. left. congruence.
  - intros G. right. auto.
Qed.

(** Looking a property up does not depend on the order the properties
    were added in. *)
Lemma get_own_Permutation name props props' :
  NoDup (map fst props) -> Permutation props props' ->
  get_own name props' = get_own name props.
Proof.
  intros ND P.
  assert (ND' : NoDup (map fst props'))
    by (eapply Permutation_NoDup; [apply Permutation_map; exact P|exact ND]).
  destruct (get_own name props) as [v|] eqn:G.
  - apply get_own_In; [exact ND'|].
    eapply Permutation_in; [exact P|]. apply get_own_Some. exact G.
  - destruct (get_own name props') as [v'|] eqn:G'; [|reflexivity].
    apply get_own_Some in G'. apply Permutation_sym in P.
    apply (Permutation_in _ P) in G'.
    apply (get_own_In _ _ _ ND) in G'. congruence.
Qed.

(** The formatted cookie does not depend on the order of the options. *)
Lemma cookie_string_Permutation key value props props' :
  NoDup (map fst props) -> Permutation props props' ->
  cookie_string key value props' = cookie_string key value props.
Proof.
  intros ND P. unfold cookie_string, attribute, secure_flag, get_prop.
  rewrite !(get_own_Permutation _ props props' ND P). reflexivity.
Qed.

(** C4 (amended).  For strings [k] and [v] without an unpaired surrogate,
    with the encodings [ek] and [ev], and an options object with the
    properties [props], the string [setItem] hands to [write] is [ek=ev]
    followed by the segments for [expires], [path] and [domain], in this
    order and each exactly when the option is present, and by [; secure]
    exactly when [opts.secure] is truthy; the same options supplied in
    another order give the same string. *)
Theorem setItem_attribute_order {H} (o : options H) (w : world H)
    (k v : jsstring) (props : list (jsstring * prim)) :
  well_formed k = true ->
  well_formed v = true ->
  exists ek ev,
    encodeURIComponent (VStr k) = Return ek
    /\ encodeURIComponent (VStr v) = Return ev
    /\ write_calls (snd (setItem o (VStr k) (VStr v) (VObj props) w))
       = write_calls w
         ++ [(ek ++ js "=" ++ ev
              ++ attribute (js "expires") props
              ++ attribute (js "path") props
              ++ attribute (js "domain") props
              ++ secure_flag props,
              {| meta_remove := false; meta_value := ev;
                 meta_opts := VObj props; meta_key := VStr ek |})]
    /\ forall supplied,
         NoDup (map fst props) -> Permutation props supplied ->
         map fst (write_calls (snd (setItem o (VStr k) (VStr v) (VObj supplied) w)))
         = map fst (write_calls (snd (setItem o (VStr k) (VStr v) (VObj props) w))).
Proof.
  intros Wk Wv.
  destruct (Encode_accepts k Wk) as [ek Ek].
  destruct (Encode_accepts v Wv) as [ev Ev].
  exists ek, ev. split; [exact Ek|]. split; [exact Ev|].
  assert (F : forall p,
             write_calls (snd (setItem o (VStr k) (VStr v) (VObj p) w))
             = write_calls w
               ++ [(cookie_string ek ev p,
                    {| meta_remove := false; meta_value := ev;
                       meta_opts := VObj p; meta_key := VStr ek |})]).
  { intros p. rewrite (setItem_strings o k v (VObj p) p ek ev Ek Ev eq_refl).
    destruct (options_write o) as [f|] eqn:Ew.
    - rewrite (write_hooked o f) by assumption. reflexivity.
    - rewrite write_default by assumption. reflexivity. }
  split.
  - apply F.
  - intros supplied ND P. rewrite !F, !map_app. cbn [map fst].
    rewrite (cookie_string_Permutation ek ev props supplied ND P). reflexivity.
Qed.

Lemma setItem_attribute_order_witness :
  well_formed (js "k") = true
  /\ well_formed (js "v") = true
  /\ (exists ek ev,
        encodeURIComponent (VStr (js "k")) = Return ek
        /\ encodeURIComponent (VStr (js "v")) = Return ev
        /\ write_calls
             (snd (setItem no_hooks (VStr (js "k")) (VStr (js "v"))
                     (VObj [(js "secure", PBool true); (js "domain", PStr (js "x"));
                            (js "path", PStr (js "/")); (js "expires", PStr (js "E"))])
                     (seeded [] tt)))
           = write_calls (seeded [] tt)
             ++ [(ek ++ js "=" ++ ev
                  ++ attribute (js "expires")
                       [(js "secure", PBool true); (js "domain", PStr (js "x"));
                        (js "path", PStr (js "/")); (js "expires", PStr (js "E"))]
                  ++ attribute (js "path")
                       [(js "secure", PBool true); (js "domain", PStr (js "x"));
                        (js "path", PStr (js "/")); (js "expires", PStr (js "E"))]
                  ++ attribute (js "domain")
                       [(js "secure", PBool true); (js "domain", PStr (js "x"));
                        (js "path", PStr (js "/")); (js "expires", PStr (js "E"))]
                  ++ secure_flag
                       [(js "secure", PBool true); (js "domain", PStr (js "x"));
                        (js "path", PStr (js "/")); (js "expires", PStr (js "E"))],
                  {| meta_remove := false; meta_value := ev;
                     meta_opts :=
                       VObj [(js "secure", PBool true); (js "domain", PStr (js "x"));
                             (js "path", PStr (js "/")); (js "expires", PStr (js "E"))];
                     meta_key := VStr ek |})]
        /\ forall supplied,
             NoDup (map fst [(js "secure", PBool true); (js "domain", PStr (js "x"));
                             (js "path", PStr (js "/")); (js "expires", PStr (js "E"))]) ->
             Permutation [(js "secure", PBool true); (js "domain", PStr (js "x"));
                          (js "path", PStr (js "/")); (js "expires", PStr (js "E"))]
                         supplied ->
             map fst (write_calls
                        (snd (setItem no_hooks (VStr (js "k")) (VStr (js "v"))
                                (VObj supplied) (seeded [] tt))))
             = map fst (write_calls
                          (snd (setItem no_hooks (VStr (js "k")) (VStr (js "v"))
                                  (VObj [(js "secure", PBool true);
                                         (js "domain", PStr (js "x"));
                                         (js "path", PStr (js "/"));
                                         (js "expires", PStr (js "E"))])
                                  (seeded [] tt)))))
  /\ map fst (write_calls
                (snd (setItem no_hooks (VStr (js "k")) (VStr (js "v"))
                        (VObj [(js "secure", PBool true); (js "domain", PStr (js "x"));
                               (js "path", PStr (js "/")); (js "expires", PStr (js "E"))])
                        (seeded [] tt))))
     = [js "k=v; expires=E; path=/; domain=x; secure"].
Proof.
  split; [reflexivity|]. split; [reflexivity|]. split; [|reflexivity].
  exact (setItem_attribute_order no_hooks (seeded [] tt) (js "k") (js "v")
           [(js "secure", PBool true); (js "domain", PStr (js "x"));
            (js "path", PStr (js "/")); (js "expires", PStr (js "E"))]
           eq_refl eq_refl).
Defined.

(** C4 as stated fails: the value is a string with an unpaired surrogate,
    [encodeURIComponent] throws a URIError on it, and [setItem] formats
    no string and calls [write] not once. *)
Lemma setItem_attribute_lone_surrogate :
  is_string [55296]
  /\ setItem no_hooks (VStr (js "k")) (VStr [55296])
       (VObj [(js "path", PStr (js "/"))]) (seeded [] tt)
     = (Throw URIError, seeded [] tt)
  /\ write_calls
       (snd (setItem no_hooks (VStr (js "k")) (VStr [55296])
               (VObj [(js "path", PStr (js "/"))]) (seeded [] tt)))
     = [].
Proof.
  split; [|split].
  - repeat constructor; unfold is_code_unit; lia.
  - reflexivity.
  - reflexivity.
Qed.

(** C5.  For a string [k], [removeItem(k)] is the call of [write] on [k],
    as it is and not percent-encoded, followed by
    [=;expires=Thu, 01 Jan 1970 00:00:01 GMT;], with the meta data
    [remove: true], [value: ''], [key: k] and [opts: {}]; it returns what
    [write] returns: the hook's result, or the string assigned to
    [doc.cookie] when there is no hook. *)
Theorem removeItem_writes_expiry {H} (o : options H) (k : jsstring) (w : world H) :
  let cookie := k ++ js "=;expires=Thu, 01 Jan 1970 00:00:01 GMT;" in
  let m := {| meta_remove := true; meta_value := []; meta_opts := VObj [];
              meta_key := VStr k |} in
  removeItem o (VStr k) w = write o cookie m w
  /\ write_calls (snd (removeItem o (VStr k) w)) = write_calls w ++ [(cookie, m)]
  /\ match options_write o with
     | Some f =>
         fst (removeItem o (VStr k) w) = fst (f cookie m (world_heap w))
         /\ world_heap (snd (removeItem o (VStr k) w)) = snd (f cookie m (world_heap w))
     | None =>
         fst (removeItem o (VStr k) w) = Return (VStr cookie)
         /\ doc_cookie (world_heap (snd (removeItem o (VStr k) w))) = cookie
     end.
Proof.
  intros cookie m.
  assert (E : removeItem o (VStr k) w = write o cookie m w) by reflexivity.
  rewrite E. split; [reflexivity|].
  destruct (options_write o) as [f|] eqn:Ew.
  - rewrite (write_hooked o f) by assumption. cbn. auto.
  - rewrite write_default by assumption. cbn. auto.
Qed.

Lemma split_go_before cookie :
  exists others, split_go (js "=") O cookie = before_equals cookie :: others.
Proof.
  change (js "=") with [61].
  induction cookie as [|c rest [others IH]]; cbn [split_go before_equals starts_with].
  - eauto.
  - rewrite Z.eqb_sym. destruct (Z.eqb_spec c 61); cbn [andb].
    + eauto.
    + rewrite IH. cbn [cons_head]. eauto.
Qed.

(** The first piece of the naive split is the part before the first [=]. *)
Lemma first_element_split cookie :
  first_element (split cookie (js "=")) = VStr (before_equals cookie).
Proof.
  destruct (split_go_before cookie) as [others E].
  change (split cookie (js "=")) with (split_go (js "=") O cookie).
  rewrite E. reflexivity.
Qed.

Lemma removeItem_calls {H} (o : options H) name w :
  returns_normally (options_write o) ->
  exists v w',
    removeItem o (VStr name) w = (Return v, w')
    /\ write_calls w' = write_calls w ++ [removal name].
Proof.
  intros Hn. change (removeItem o (VStr name) w) with
    (write o (fst (removal name)) (snd (removal name)) w).
  unfold returns_normally in Hn. destruct (options_write o) as [f|] eqn:Ew.
  - rewrite (write_hooked o f) by assumption.
    destruct (Hn (fst (removal name)) (snd (removal name)) (world_heap w)) as [v Ev].
    rewrite Ev. eexists. eexists. split; reflexivity.
  - rewrite write_default by assumption. eexists. eexists. split; reflexivity.
Qed.

Lemma clear_loop_calls {H} (o : options H) cookies :
  returns_normally (options_write o) ->
  forall names w,
    decode_all (map before_equals cookies) = Return names ->
    exists w',
      clear_loop o cookies w = (Return VUndefined, w')
      /\ write_calls w' = write_calls w ++ map removal names.
Proof.
  intros Hn. induction cookies as [|cookie rest IH]; intros names w Hd.
  - cbn in Hd. injection Hd as <-. exists w. cbn [map]. rewrite app_nil_r.
    split; reflexivity.
  - cbn [map decode_all] in Hd.
    destruct (Decode (before_equals cookie)) as [name|e] eqn:En; [|discriminate].
    cbn [cbind] in Hd. apply cmap_Return_inv in Hd as (names' & Hd' & ->).
    cbn [clear_loop]. rewrite first_element_split.
    unfold decodeURIComponent. cbn [ToString prim_to_string cbind].
    rewrite En, bind_Return.
    destruct (removeItem_calls o name w Hn) as (v & w1 & Er & Ec).
    unfold bind at 1. rewrite Er.
    destruct (IH names' w1 Hd') as (w' & El & Ec').
    exists w'. split; [exact El|].
    rewrite Ec', Ec, <- app_assoc. reflexivity.
Qed.

Lemma decode_all_length encoded names :
  decode_all encoded = Return names -> length names = length encoded.
Proof.
  revert names. induction encoded as [|s rest IH]; intros names Hd; cbn in Hd.
  - injection Hd as <-. reflexivity.
  - destruct (Decode s); [|discriminate]. cbn [cbind] in Hd.
    apply cmap_Return_inv in Hd as (names' & Hd' & ->).
    cbn [length]. rewrite (IH names') by assumption. reflexivity.
Qed.

(** C6 (amended).  Without a [read] hook, with a [write] hook (if any)
    that returns normally, and when the part before the first [=] of
    every entry of the cookie line decodes, [clear()] returns [undefined]
    after one call of [write] per entry, in order: the [i]-th call is the
    removal of the decoded name of the [i]-th entry.  The entries are
    those of the line at the time of the call, whatever the hook does to
    [doc.cookie] in between. *)
Theorem clear_removes_each_entry {H} (o : options H) (w : world H) (names : list jsstring) :
  options_read o = None ->
  returns_normally (options_write o) ->
  decode_all (map before_equals (split_splitter (doc_cookie (world_heap w)))) = Return names ->
  exists w',
    clear o w = (Return VUndefined, w')
    /\ write_calls w' = write_calls w ++ map removal names
    /\ length (map removal names) = length (split_splitter (doc_cookie (world_heap w))).
Proof.
  intros Hr Hn Hd.
  destruct (clear_loop_calls o _ Hn names w Hd) as (w' & El & Ec).
  exists w'. split; [|split].
  - unfold clear, read. rewrite Hr. exact El.
  - exact Ec.
  - rewrite length_map, (decode_all_length _ _ Hd), length_map. reflexivity.
Qed.

Lemma clear_removes_each_entry_witness :
  exists w',
    clear collecting (seeded (js "a=1; b=2; c=3") []) = (Return VUndefined, w')
    /\ write_calls w' = map removal [js "a"; js "b"; js "c"]
    /\ length (map removal [js "a"; js "b"; js "c"]) = 3%nat.
Proof.
  apply (clear_removes_each_entry collecting (seeded (js "a=1; b=2; c=3") [])
           [js "a"; js "b"; js "c"]).
  - reflexivity.
  - intros cookie m hp. exists VUndefined. reflexivity.
  - reflexivity.
Defined.

(** C6 as stated fails: the line has three entries, the name of the
    second does not decode, and [clear()] throws after a single call of
    [write]. *)
Lemma clear_undecodable_name :
  split_splitter (js "a=1; %=2; c=3") = [js "a=1"; js "%=2"; js "c=3"]
  /\ fst (clear no_hooks (seeded (js "a=1; %=2; c=3") tt)) = Throw URIError
  /\ write_calls (snd (clear no_hooks (seeded (js "a=1; %=2; c=3") tt)))
     = [removal (js "a")].
Proof. repeat split. Qed.

(** C7 (amended).  On a store seeded with [a=1; b=2; c=3] and a [write]
    hook that only collects its calls, [clear()] hands the hook the three
    removals and returns; [doc.cookie] is as before, so [getItem] still
    returns ['1'], ['2'] and ['3'] for [a], [b] and [c]. *)
Theorem clear_with_collecting_hook :
  let w := snd (clear collecting (seeded (js "a=1; b=2; c=3") [])) in
  fst (clear collecting (seeded (js "a=1; b=2; c=3") [])) = Return VUndefined
  /\ hook_state (world_heap w) = map removal [js "a"; js "b"; js "c"]
  /\ doc_cookie (world_heap w) = js "a=1; b=2; c=3"
  /\ fst (getItem collecting (VStr (js "a")) w) = Return (VStr (js "1"))
  /\ fst (getItem collecting (VStr (js "b")) w) = Return (VStr (js "2"))
  /\ fst (getItem collecting (VStr (js "c")) w) = Return (VStr (js "3")).
Proof. cbv zeta. repeat split. Qed.

(** C7 as stated fails: after [clear()] with the collecting hook,
    [getItem('a')] returns ['1'] and not [undefined]. *)
Lemma clear_then_getItem_finds :
  bake (VStr (js "a=1; b=2; c=3")) (@nil (jsstring * meta))
    = Return (seeded (js "a=1; b=2; c=3") [])
  /\ fst ((clear collecting ;; getItem collecting (VStr (js "a")))
            (seeded (js "a=1; b=2; c=3") []))
     = Return (VStr (js "1"))
  /\ fst ((clear collecting ;; getItem collecting (VStr (js "a")))
            (seeded (js "a=1; b=2; c=3") []))
     <> Return VUndefined.
Proof. split; [reflexivity|]. split; [reflexivity|discriminate]. Qed.

(** An entry without [=]: the name is the entry less its last code unit
    and the value is the whole entry. *)
Lemma getItem_loop_no_delimiter key s c rest :
  Forall (fun x => x <> 61) (s ++ [c]) ->
  getItem_loop key ((s ++ [c]) :: rest) =
  cbind (Decode s) (fun name =>
    if strict_eq_string name key
    then cmap (fun v => VStr v) (Decode (s ++ [c]))
    else getItem_loop key rest).
Proof.
  intros Hno. cbn [getItem_loop]. unfold indexOf.
  rewrite index_from_missing by assumption.
  change (-1 + 1) with 0. rewrite slice_drop_last, slice_all. reflexivity.
Qed.

(** C8, the code at the entry [abc].  [indexOf] is [-1], so
    [slice(0, -1)] makes [ab] the name and [slice(0)] makes [abc] the
    value: [getItem('abc')] finds nothing and [getItem('ab')] returns
    ['abc'].  [clear()], which splits on [=], takes the whole entry for
    the name. *)
Theorem getItem_missing_delimiter :
  indexOf (js "abc") (js "=") = -1
  /\ entry_name (js "abc") = Return (js "ab")
  /\ entry_value (js "abc") = Return (js "abc")
  /\ getItem no_hooks (VStr (js "abc")) (seeded (js "abc") tt)
     = (Return VUndefined, seeded (js "abc") tt)
  /\ getItem no_hooks (VStr (js "ab")) (seeded (js "abc") tt)
     = (Return (VStr (js "abc")), seeded (js "abc") tt)
  /\ write_calls (snd (clear no_hooks (seeded (js "abc") tt))) = [removal (js "abc")].
Proof. repeat split. Qed.

(** C9.  On a store with an empty cookie line and no [read] hook,
    [getItem] returns [undefined] for every key but the empty string,
    ['missing'] among them. *)
Theorem getItem_empty_store {H} (o : options H) (w : world H) (key : jsval) :
  options_read o = None ->
  doc_cookie (world_heap w) = [] ->
  key <> VStr [] ->
  getItem o key w = (Return VUndefined, w).
Proof.
  intros Hr Hc Hk. rewrite getItem_split by assumption. rewrite Hc. f_equal.
  cbn. destruct key as [[| |b|z|s]|props]; try reflexivity.
  destruct s; [contradiction Hk; reflexivity|reflexivity].
Qed.

Lemma getItem_empty_store_witness :
  bake VUndefined tt = Return (seeded [] tt)
  /\ getItem no_hooks (VStr (js "missing")) (seeded [] tt) = (Return VUndefined, seeded [] tt).
Proof.
  split; [reflexivity|].
  apply getItem_empty_store; [reflexivity|reflexivity|discriminate].
Defined.

(** C10.  On a store with an empty cookie line and no [read] hook, the
    line splits into the single entry [''], whose name and value are
    both [''], and [getItem('')] returns [''] and not [undefined]. *)
Theorem getItem_empty_key {H} (o : options H) (w : world H) :
  options_read o = None ->
  doc_cookie (world_heap w) = [] ->
  read o w = (Return [[]], w)
  /\ entry_name [] = Return []
  /\ entry_value [] = Return []
  /\ getItem o (VStr []) w = (Return (VStr []), w).
Proof.
  intros Hr Hc. split; [|split; [|split]]; try reflexivity.
  - unfold read. rewrite Hr. unfold bind, get_cookie. rewrite Hc. reflexivity.
  - rewrite getItem_split by assumption. rewrite Hc. reflexivity.
Qed.

Lemma getItem_empty_key_witness :
  bake (VObj []) tt = Return (seeded [] tt)
  /\ getItem no_hooks (VStr []) (seeded [] tt) = (Return (VStr []), seeded [] tt).
Proof.
  split; [reflexivity|].
  apply (getItem_empty_key no_hooks (seeded [] tt)); reflexivity.
Defined.

(* ================================================================== *)
(** * Further properties of the store *)
(* ================================================================== *)

Lemma Decode_loop_throws fuel :
  forall s e, Decode_loop fuel s = Throw e -> e = URIError.
Proof.
  induction fuel as [|fuel IH]; intros s e; cbn [Decode_loop]; [discriminate|].
  destruct s as [|c rest]; [discriminate|].
  destruct (c =? 37).
  - destruct (parse_escape (c :: rest)) as [[b after]|]; [|congruence].
    cbv zeta. destruct (leading_ones b =? 0)%nat.
    + destruct (Decode_loop fuel after) eqn:E; cbn; [discriminate|].
      intros [= <-]. eauto.
    + destruct ((leading_ones b =? 1)%nat || (4 <? leading_ones b)%nat); [congruence|].
      destruct (parse_escapes (leading_ones b - 1) after) as [[bs after']|]; [|congruence].
      destruct (utf8_decode (b :: bs)); [|congruence].
      destruct (Decode_loop fuel after') eqn:E; cbn; [discriminate|].
      intros [= <-]. eauto.
  - destruct (Decode_loop fuel rest) eqn:E; cbn; [discriminate|].
    intros [= <-]. eauto.
Qed.

Lemma decodeURIComponent_string_throws s e :
  decodeURIComponent (VStr s) = Throw e -> e = URIError.
Proof. apply Decode_loop_throws. Qed.

Lemma getItem_loop_outcome key cookies :
  getItem_loop key cookies = Return VUndefined
  \/ (exists s, getItem_loop key cookies = Return (VStr s))
  \/ getItem_loop key cookies = Throw URIError.
Proof.
  induction cookies as [|cookie rest IH]; cbn [getItem_loop]; [auto|].
  destruct (decodeURIComponent (VStr (slice cookie 0 (Some (indexOf cookie (js "="))))))
    as [name|e] eqn:En; cbn [cbind].
  - destruct (strict_eq_string name key); [|exact IH].
    destruct (decodeURIComponent
                (VStr (slice cookie (indexOf cookie (js "=") + 1) None)))
      as [v|e] eqn:Ev; cbn.
    + right. left. eauto.
    + apply decodeURIComponent_string_throws in Ev. subst. auto.
  - apply decodeURIComponent_string_throws in En. subst. auto.
Qed.

(** X1.  Without a [read] hook, [getItem] changes nothing: the line, the
    hooks' state and the log of [write] calls are as before.  It returns
    [undefined] or a string, and the only exception it raises is the
    URIError of [decodeURIComponent]. *)
Theorem getItem_reads_only {H} (o : options H) (key : jsval) (w : world H) :
  options_read o = None ->
  snd (getItem o key w) = w
  /\ (fst (getItem o key w) = Return VUndefined
      \/ (exists s, fst (getItem o key w) = Return (VStr s))
      \/ fst (getItem o key w) = Throw URIError).
Proof.
  intros Hr. rewrite getItem_split by assumption. cbn [fst snd].
  split; [reflexivity|]. apply getItem_loop_outcome.
Qed.

Lemma getItem_reads_only_witness :
  snd (getItem collecting (VStr (js "b")) (seeded (js "a=1; b=%zz") [])) = seeded (js "a=1; b=%zz") []
  /\ (fst (getItem collecting (VStr (js "b")) (seeded (js "a=1; b=%zz") [])) = Return VUndefined
      \/ (exists s, fst (getItem collecting (VStr (js "b")) (seeded (js "a=1; b=%zz") []))
                    = Return (VStr s))
      \/ fst (getItem collecting (VStr (js "b")) (seeded (js "a=1; b=%zz") [])) = Throw URIError).
Proof. exact (getItem_reads_only collecting (VStr (js "b")) (seeded (js "a=1; b=%zz") []) eq_refl). Defined.




Lemma surrogate_reserved c :
  is_leading_surrogate c = true \/ is_trailing_surrogate c = true ->
  uriUnreserved c = false.
Proof.
  unfold is_leading_surrogate, is_trailing_surrogate. rewrite !in_range_spec.
  intros Hc. unfold uriUnreserved, is_alpha, is_digit, is_mark, in_range.
  zcases; reflexivity.
Qed.

Lemma Encode_rejects n :
  forall s, (length s <= n)%nat -> well_formed s = false ->
            Encode uriUnreserved s = Throw URIError.
Proof.
  induction n as [|n IH]; intros s Hn W.
  - destruct s; [discriminate W|cbn in Hn; lia].
  - destruct s as [|c rest]; [discriminate W|].
    cbn [length] in Hn. cbn [well_formed] in W. cbn [Encode].
    destruct (is_leading_surrogate c) eqn:L.
    + rewrite surrogate_reserved by auto.
      destruct rest as [|c2 rest']; [reflexivity|].
      destruct (is_trailing_surrogate c2); [|reflexivity].
      cbn [andb] in W. cbn [length] in Hn.
      rewrite (IH rest') by (assumption || lia). reflexivity.
    + destruct (is_trailing_surrogate c) eqn:T.
      * rewrite surrogate_reserved by auto. reflexivity.
      * cbn [negb andb] in W. rewrite (IH rest) by (assumption || lia).
        destruct (uriUnreserved c); reflexivity.
Qed.

Lemma Encode_ill_formed s :
  well_formed s = false -> Encode uriUnreserved s = Throw URIError.
Proof. apply (Encode_rejects (length s)). lia. Qed.

Lemma hex_digit_unreserved d : 0 <= d < 16 -> uriUnreserved (hex_digit d) = true.
Proof.
  intros Hd. unfold hex_digit, uriUnreserved, is_alpha, is_digit, is_mark, in_range.
  zcases; reflexivity.
Qed.

Lemma escape_code_point_chars cp :
  0 <= cp < 1114112 -> Forall uri_char (escape_code_point cp).
Proof.
  intros Hcp. unfold escape_code_point.
  pose proof (utf8_encode_octets cp Hcp) as Hoct.
  induction Hoct as [|b bs Hb Hbs IH]; cbn [flat_map].
  - constructor.
  - unfold is_octet in Hb. apply Forall_app. split; [|exact IH].
    unfold escape_octet.
    apply Forall_cons; [right; reflexivity|].
    apply Forall_cons; [left; apply hex_digit_unreserved; dlia|].
    apply Forall_cons; [left; apply hex_digit_unreserved; dlia|].
    apply Forall_nil.
Qed.

Lemma Encode_chars n :
  forall s e,
    (length s <= n)%nat -> is_string s ->
    Encode uriUnreserved s = Return e -> Forall uri_char e.
Proof.
  induction n as [|n IH]; intros s e Hn Hs HE.
  - destruct s; [|cbn in Hn; lia]. cbn in HE. injection HE as <-. constructor.
  - destruct s as [|c rest].
    { cbn in HE. injection HE as <-. constructor. }
    inversion Hs as [|? ? Hc Hrest]; subst. cbn [length] in Hn.
    apply Encode_cons_inv in HE
      as [(U & e' & E1 & ->)
         |[(U & L & c2 & rest' & e' & -> & T & E1 & ->)
          |(U & L & T & e' & E1 & ->)]].
    + constructor; [left; assumption|].
      apply (IH rest); (assumption || lia).
    + destruct (surrogate_pair_scalar c c2 L T) as [[Hsc _] _].
      inversion Hrest; subst. cbn [length] in Hn.
      apply Forall_app. split; [apply escape_code_point_chars; assumption|].
      apply (IH rest'); (assumption || lia).
    + apply Forall_app. split.
      * apply escape_code_point_chars. unfold is_code_unit in Hc. lia.
      * apply (IH rest); (assumption || lia).
Qed.

Lemma Encode_uri_chars s e :
  is_string s -> Encode uriUnreserved s = Return e -> Forall uri_char e.
Proof. apply (Encode_chars (length s)). lia. Qed.

Lemma uri_char_not_whitespace c : uri_char c -> is_whitespace c = false.
Proof.
  intros [U| ->]; [|reflexivity].
  revert U. unfold uriUnreserved, is_alpha, is_digit, is_mark, in_range, is_whitespace.
  zcases; (reflexivity || discriminate).
Qed.

Lemma escape_code_point_long cp : (3 <= length (escape_code_point cp))%nat.
Proof. unfold escape_code_point, utf8_encode. zcases; cbn; lia. Qed.

(** Encoding never shortens a string, and keeps its length only when it
    leaves every code unit as it is. *)
Lemma Encode_length n :
  forall s e,
    (length s <= n)%nat ->
    Encode uriUnreserved s = Return e ->
    if forallb uriUnreserved s then e = s else (length s < length e)%nat.
Proof.
  induction n as [|n IH]; intros s e Hn HE.
  - destruct s; [|cbn in Hn; lia]. cbn in HE. injection HE as <-. reflexivity.
  - destruct s as [|c rest].
    { cbn in HE. injection HE as <-. reflexivity. }
    cbn [length] in Hn.
    assert (Hle : forall r e', (length r <= n)%nat -> Encode uriUnreserved r = Return e' ->
                               (length r <= length e')%nat).
    { intros r e' Hr Er. pose proof (IH r e' Hr Er) as Hi.
      destruct (forallb uriUnreserved r); [subst; lia|lia]. }
    apply Encode_cons_inv in HE
      as [(U & e' & E1 & ->)
         |[(U & L & c2 & rest' & e' & -> & T & E1 & ->)
          |(U & L & T & e' & E1 & ->)]];
      cbn [forallb]; rewrite U; cbn [andb].
    + pose proof (IH rest e' ltac:(lia) E1) as Hi.
      destruct (forallb uriUnreserved rest); [subst; reflexivity|cbn [length]; lia].
    + cbn [length] in Hn |- *. rewrite length_app.
      pose proof (escape_code_point_long (UTF16SurrogatePairToCodePoint c c2)).
      pose proof (Hle rest' e' ltac:(lia) E1). lia.
    + cbn [length]. rewrite length_app.
      pose proof (escape_code_point_long c).
      pose proof (Hle rest e' ltac:(lia) E1). lia.
Qed.

Lemma Encode_fixed s e :
  Encode uriUnreserved s = Return e -> (e = s <-> forallb uriUnreserved s = true).
Proof.
  intros HE. pose proof (Encode_length (length s) s e (Nat.le_refl _) HE) as Hl.
  destruct (forallb uriUnreserved s).
  - tauto.
  - split; [|discriminate]. intros ->. lia.
Qed.

(** ** The splitter on a line *)

Lemma splitter_go_piece s t :
  Forall (fun c => c <> 59) s ->
  splitter_go false (s ++ 59 :: t) = s :: splitter_go true t.
Proof.
  induction 1 as [|c s Hc Hs IH]; cbn [app splitter_go andb].
  - rewrite Z.eqb_refl. reflexivity.
  - destruct (Z.eqb_spec c 59); [contradiction|]. rewrite IH. reflexivity.
Qed.

Lemma splitter_go_skip c t :
  is_whitespace c = true -> splitter_go true (c :: t) = splitter_go true t.
Proof. intros Hc. cbn [splitter_go andb]. rewrite Hc. reflexivity. Qed.

Lemma splitter_go_resume c t :
  is_whitespace c = false -> splitter_go true (c :: t) = splitter_go false (c :: t).
Proof. intros Hc. cbn [splitter_go andb]. rewrite Hc. reflexivity. Qed.


Lemma getItem_loop_hit key name value rest :
  Forall (fun c => c <> 61) name ->
  getItem_loop key ((name ++ 61 :: value) :: rest) =
  cbind (Decode name) (fun n =>
    if strict_eq_string n key then cmap (fun v => VStr v) (Decode value)
    else getItem_loop key rest).
Proof.
  intros Hname. cbn [getItem_loop]. unfold indexOf.
  rewrite index_from_found by assumption. rewrite Z.add_0_l.
  rewrite slice_before, slice_after. reflexivity.
Qed.

(** A number is written the way the language prints it. *)
Example attribute_of_a_number :
  attribute (js "expires")
    [(js "expires", PNum {| number_string := js "1e+21"; number_truthy := true |})]
  = js "; expires=1e+21".
Proof. reflexivity. Qed.

Lemma attribute_start name props :
  attribute name props = [] \/ exists t, attribute name props = 59 :: t.
Proof.
  unfold attribute. destruct (get_own name props); [right|left; reflexivity].
  eexists. reflexivity.
Qed.

Lemma secure_flag_start props :
  secure_flag props = [] \/ exists t, secure_flag props = 59 :: t.
Proof.
  unfold secure_flag. destruct (ToBoolean _); [right|left; reflexivity].
  eexists. reflexivity.
Qed.

Lemma app_start (a b : jsstring) :
  a = [] \/ (exists t, a = 59 :: t) ->
  b = [] \/ (exists t, b = 59 :: t) ->
  a ++ b = [] \/ exists t, a ++ b = 59 :: t.
Proof.
  intros [->|[t ->]] Hb; [exact Hb|]. right. eexists. reflexivity.
Qed.

(** The formatted cookie is the encoded pair and then nothing or a
    semicolon. *)
Lemma cookie_string_pair key value props :
  exists tail,
    cookie_string key value props = (key ++ 61 :: value) ++ tail
    /\ (tail = [] \/ exists t, tail = 59 :: t).
Proof.
  exists (attribute (js "expires") props ++ attribute (js "path") props
          ++ attribute (js "domain") props ++ secure_flag props).
  split.
  - unfold cookie_string. rewrite <- app_assoc. reflexivity.
  - repeat apply app_start; (apply attribute_start || apply secure_flag_start).
Qed.

Lemma entry_no_semicolon ek ev :
  Forall plain ek -> Forall plain ev -> Forall (fun c => c <> 59) (ek ++ 61 :: ev).
Proof.
  intros Pk Pv. apply Forall_app. split; [apply Forall_plain_semicolon; assumption|].
  constructor; [lia|apply Forall_plain_semicolon; assumption].
Qed.



(** What [written] says about an entry: an encoded key, [=], an encoded
    value. *)
Lemma written_entry pair entry :
  written pair entry ->
  exists ek ev,
    Encode uriUnreserved (fst pair) = Return ek
    /\ Encode uriUnreserved (snd pair) = Return ev
    /\ entry = ek ++ 61 :: ev.
Proof.
  destruct pair as [k v]. unfold written. cbn [fst snd]. intros (_ & _ & E).
  destruct (Encode uriUnreserved v) as [ev|e] eqn:Ev.
  - destruct (Encode uriUnreserved k) as [ek|e] eqn:Ek.
    + rewrite (setItem_strings no_hooks k v VUndefined [] ek ev Ek Ev eq_refl) in E.
      rewrite write_default in E by reflexivity. cbn [fst] in E.
      injection E as <-. exists ek, ev. repeat split.
      unfold cookie_string, attribute, secure_flag. cbn [get_own get_prop ToBoolean].
      rewrite !app_nil_r. reflexivity.
    + exfalso. revert E. unfold setItem.
      change (typeof (VStr k)) with (js "string").
      change (typeof (VStr v)) with (js "string").
      rewrite jsstring_eqb_refl. cbn [negb orb ToBoolean].
      unfold encodeURIComponent. cbn [ToString prim_to_string cbind].
      rewrite Ev, Ek. discriminate.
  - exfalso. revert E. unfold setItem.
    change (typeof (VStr k)) with (js "string").
    change (typeof (VStr v)) with (js "string").
    rewrite jsstring_eqb_refl. cbn [negb orb ToBoolean].
    unfold encodeURIComponent. cbn [ToString prim_to_string cbind].
    rewrite Ev. discriminate.
Qed.

Lemma written_tidy pair entry : written pair entry -> tidy entry.
Proof.
  intros Hw. pose proof Hw as (Hk & Hv & _).
  destruct (written_entry pair entry Hw) as (ek & ev & Ek & Ev & ->).
  pose proof (Encode_plain_string _ _ Hk Ek) as Pk.
  pose proof (Encode_plain_string _ _ Hv Ev) as Pv.
  split; [apply entry_no_semicolon; assumption|].
  pose proof (Encode_uri_chars _ _ Hk Ek) as Ck.
  destruct Ck as [|c ek' Hc _].
  - exists 61, ev. split; reflexivity.
  - exists c, (ek' ++ 61 :: ev). split; [reflexivity|].
    apply uri_char_not_whitespace. exact Hc.
Qed.

Lemma splitter_go_tidy entry rest :
  tidy entry -> splitter_go true (entry ++ rest) = splitter_go false (entry ++ rest).
Proof.
  intros (_ & c & t & -> & Hc). cbn [app]. apply splitter_go_resume. exact Hc.
Qed.

(** Splitting a joined line gives back the entries. *)
Lemma split_splitter_join entries :
  Forall tidy entries -> entries <> [] ->
  split_splitter (join_entries entries) = entries.
Proof.
  unfold split_splitter. induction 1 as [|e rest He Hrest IH]; [congruence|].
  intros _. cbn [join_entries]. destruct rest as [|e2 rest'].
  - apply split_splitter_plain. apply He.
  - change (js "; " ++ join_entries (e2 :: rest'))
      with (59 :: 32 :: join_entries (e2 :: rest')).
    rewrite splitter_go_piece by apply He.
    rewrite splitter_go_skip by reflexivity.
    f_equal. transitivity (splitter_go false (join_entries (e2 :: rest')));
      [|apply IH; discriminate].
    inversion Hrest as [|? ? He2 _]; subst.
    cbn [join_entries]. destruct rest' as [|e3 rest''].
    + rewrite <- (app_nil_r e2). apply splitter_go_tidy. exact He2.
    + apply splitter_go_tidy. exact He2.
Qed.

Lemma getItem_loop_written key pairs entries :
  Forall2 written pairs entries ->
  getItem_loop (VStr key) entries
  = Return (match lookup key pairs with
            | Some v => VStr v
            | None => VUndefined
            end).
Proof.
  induction 1 as [|[k v] entry pairs entries Hw _ IH]; [reflexivity|].
  pose proof Hw as (Hk & Hv & _). cbn [fst snd] in Hk, Hv.
  destruct (written_entry _ _ Hw) as (ek & ev & Ek & Ev & ->). cbn [fst snd] in Ek, Ev.
  pose proof (Encode_plain_string _ _ Hk Ek) as Pk.
  rewrite getItem_loop_hit by (apply Forall_plain_equals; assumption).
  rewrite (Decode_Encode k ek Hk Ek). cbn [cbind strict_eq_string lookup].
  destruct (jsstring_eqb k key).
  - rewrite (Decode_Encode v ev Hv Ev). reflexivity.
  - exact IH.
Qed.

(** X6.  Reading a cookie header: when the line is made of the cookies
    [setItem] formats for a list of pairs, joined by ["; "], [getItem(key)]
    returns the value of the first pair with that key, and [undefined]
    when there is none. *)
Theorem getItem_cookie_jar {H} (o : options H) (w : world H)
    (pairs : list (jsstring * jsstring)) (entries : list jsstring) (key : jsstring) :
  options_read o = None ->
  Forall2 written pairs entries ->
  pairs <> [] ->
  doc_cookie (world_heap w) = join_entries entries ->
  getItem o (VStr key) w
  = (Return (match lookup key pairs with
             | Some v => VStr v
             | None => VUndefined
             end), w).
Proof.
  intros Hr Hw Hne Hline. rewrite getItem_split by assumption. rewrite Hline.
  f_equal. rewrite split_splitter_join.
  - apply getItem_loop_written. exact Hw.
  - clear -Hw. induction Hw as [|pair entry pairs entries Hw _ IH]; constructor.
    + exact (written_tidy pair entry Hw).
    + exact IH.
  - intros ->. inversion Hw. subst. congruence.
Qed.

Lemma getItem_cookie_jar_witness :
  getItem no_hooks (VStr (js "b c")) (seeded (js "a=1; b%20c=%3B; a=3") tt)
  = (Return (VStr (js ";")), seeded (js "a=1; b%20c=%3B; a=3") tt).
Proof.
  apply (getItem_cookie_jar no_hooks (seeded (js "a=1; b%20c=%3B; a=3") tt)
           [(js "a", js "1"); (js "b c", js ";"); (js "a", js "3")]
           [js "a=1"; js "b%20c=%3B"; js "a=3"] (js "b c")).
  - reflexivity.
  - repeat constructor; unfold is_code_unit; cbn; lia.
  - discriminate.
  - reflexivity.
Defined.

Lemma setItem_calls {H} (o : options H) k v props ek ev w :
  Encode uriUnreserved k = Return ek ->
  Encode uriUnreserved v = Return ev ->
  write_calls (snd (setItem o (VStr k) (VStr v) (VObj props) w))
  = write_calls w
    ++ [(cookie_string ek ev props,
         {| meta_remove := false; meta_value := ev;
            meta_opts := VObj props; meta_key := VStr ek |})].
Proof.
  intros Ek Ev. rewrite (setItem_strings o k v (VObj props) props ek ev Ek Ev eq_refl).
  destruct (options_write o) as [f|] eqn:Ew.
  - rewrite (write_hooked o f) by assumption. reflexivity.
  - rewrite write_default by assumption. reflexivity.
Qed.

(** X7.  [setItem] calls [write] once, with meta data from which a hook
    gets the arguments back: [remove] is [false], [opts] is the options
    object, and [key] and [value] decode to the key and the value. *)
Theorem setItem_meta_decodes {H} (o : options H) (w : world H) (k v : jsstring)
    (props : list (jsstring * prim)) :
  is_string k -> is_string v ->
  well_formed k = true -> well_formed v = true ->
  exists cookie m,
    write_calls (snd (setItem o (VStr k) (VStr v) (VObj props) w))
    = write_calls w ++ [(cookie, m)]
    /\ meta_remove m = false
    /\ meta_opts m = VObj props
    /\ decodeURIComponent (meta_key m) = Return k
    /\ decodeURIComponent (VStr (meta_value m)) = Return v.
Proof.
  intros Hk Hv Wk Wv.
  destruct (Encode_accepts k Wk) as [ek Ek].
  destruct (Encode_accepts v Wv) as [ev Ev].
  eexists. eexists. split; [apply (setItem_calls o k v props ek ev w Ek Ev)|].
  cbn [meta_remove meta_opts meta_key meta_value]. repeat split.
  - exact (Decode_Encode k ek Hk Ek).
  - exact (Decode_Encode v ev Hv Ev).
Qed.

Lemma setItem_meta_decodes_witness :
  exists cookie m,
    write_calls (snd (setItem collecting (VStr (js "a b")) (VStr [61; 233; 55357; 56832])
                        (VObj [(js "path", PStr (js "/"))]) (seeded (js "x=1") [])))
    = [] ++ [(cookie, m)]
    /\ meta_remove m = false
    /\ meta_opts m = VObj [(js "path", PStr (js "/"))]
    /\ decodeURIComponent (meta_key m) = Return (js "a b")
    /\ decodeURIComponent (VStr (meta_value m)) = Return [61; 233; 55357; 56832].
Proof.
  apply (setItem_meta_decodes collecting (seeded (js "x=1") [])).
  - repeat constructor; unfold is_code_unit; cbn; lia.
  - repeat constructor; unfold is_code_unit; lia.
  - reflexivity.
  - reflexivity.
Defined.

Lemma before_equals_app s t :
  Forall (fun c => c <> 61) s -> before_equals (s ++ 61 :: t) = s.
Proof.
  induction 1 as [|c s Hc Hs IH]; cbn [app before_equals].
  - rewrite Z.eqb_refl. reflexivity.
  - destruct (Z.eqb_spec c 61); [contradiction|]. rewrite IH. reflexivity.
Qed.

Lemma before_equals_bound (s t : jsstring) :
  (length (before_equals (s ++ 61%Z :: t)) <= length s)%nat.
Proof.
  induction s as [|c s IH]; cbn [app before_equals length].
  - rewrite Z.eqb_refl. cbn [length]. lia.
  - destruct (c =? 61); cbn [length]; lia.
Qed.

Lemma unreserved_no_equals s :
  forallb uriUnreserved s = true -> Forall (fun c => c <> 61) s.
Proof.
  rewrite forallb_forall, Forall_forall. intros Hs c Hc.
  apply Hs, uriUnreserved_plain in Hc. apply Hc.
Qed.

(** X8.  [setItem] encodes the key and [removeItem] does not: the cookie
    [removeItem(k)] expires has the name of the cookie [setItem(k, v)]
    wrote exactly when [k] is made of unreserved characters only. *)
Theorem setItem_removeItem_same_name {H} (o : options H) (w : world H) (k v : jsstring) :
  is_string k ->
  well_formed k = true -> well_formed v = true ->
  cookie_names (write_calls (snd (setItem o (VStr k) (VStr v) VUndefined w)))
  = cookie_names (write_calls (snd (removeItem o (VStr k) w)))
  <-> forallb uriUnreserved k = true.
Proof.
  intros Hk Wk Wv.
  destruct (Encode_accepts k Wk) as [ek Ek].
  destruct (Encode_accepts v Wv) as [ev Ev].
  pose proof (Encode_plain_string k ek Hk Ek) as Pk.
  rewrite (setItem_strings o k v VUndefined [] ek ev Ek Ev eq_refl).
  change (removeItem o (VStr k) w) with
    (write o (fst (removal k)) (snd (removal k)) w).
  assert (Hlog : forall cookie m,
             write_calls (snd (write o cookie m w)) = write_calls w ++ [(cookie, m)]).
  { intros cookie m. destruct (options_write o) as [f|] eqn:Ew.
    - rewrite (write_hooked o f) by assumption. reflexivity.
    - rewrite write_default by assumption. reflexivity. }
  rewrite !Hlog. unfold cookie_names. rewrite !map_app. cbn [map fst].
  destruct (cookie_string_pair ek ev []) as (tail & -> & _).
  rewrite <- app_assoc. cbn [app].
  rewrite before_equals_app by (apply Forall_plain_equals; assumption).
  change (fst (removal k))
    with (k ++ 61 :: js ";expires=Thu, 01 Jan 1970 00:00:01 GMT;").
  split.
  - intros E. apply app_inv_head in E. injection E as E.
    apply (Encode_fixed k ek Ek).
    pose proof (before_equals_bound k (js ";expires=Thu, 01 Jan 1970 00:00:01 GMT;")) as Hl.
    pose proof (Encode_length (length k) k ek (Nat.le_refl _) Ek) as He.
    destruct (forallb uriUnreserved k); [exact He|].
    exfalso. unfold jsstring, code_unit in *. rewrite <- E in Hl. lia.
  - intros U. apply (Encode_fixed k ek Ek) in U. subst ek.
    rewrite before_equals_app by (apply Forall_plain_equals; assumption).
    reflexivity.
Qed.

Lemma setItem_removeItem_same_name_witness :
  cookie_names (write_calls (snd (setItem no_hooks (VStr (js "a b")) (VStr (js "1"))
                                    VUndefined (seeded [] tt))))
  = cookie_names (write_calls (snd (removeItem no_hooks (VStr (js "a b")) (seeded [] tt))))
  <-> forallb uriUnreserved (js "a b") = true.
Proof.
  apply setItem_removeItem_same_name.
  - repeat constructor; unfold is_code_unit; cbn; lia.
  - reflexivity.
  - reflexivity.
Defined.

Lemma write_keeps_cookie {H} (o : options H) f cookie m w :
  options_write o = Some f -> keeps_cookie f ->
  doc_cookie (world_heap (snd (write o cookie m w))) = doc_cookie (world_heap w).
Proof.
  intros Ew Hf. rewrite (write_hooked o f) by assumption. cbn [snd world_heap].
  apply Hf.
Qed.

Lemma setItem_keeps_cookie {H} (o : options H) f key value opts w :
  options_write o = Some f -> keeps_cookie f ->
  doc_cookie (world_heap (snd (setItem o key value opts w))) = doc_cookie (world_heap w).
Proof.
  intros Ew Hf. unfold setItem.
  destruct (negb _ || negb _); [reflexivity|].
  unfold bind, lift.
  destruct (encodeURIComponent value) as [ev|e]; [|reflexivity].
  destruct (encodeURIComponent key) as [ek|e]; [|reflexivity].
  destruct (if negb (ToBoolean opts) then VObj [] else opts) as [p|props];
    [reflexivity|].
  cbv zeta. apply (write_keeps_cookie o f); assumption.
Qed.

Lemma removeItem_keeps_cookie {H} (o : options H) f key w :
  options_write o = Some f -> keeps_cookie f ->
  doc_cookie (world_heap (snd (removeItem o key w))) = doc_cookie (world_heap w).
Proof.
  intros Ew Hf. unfold removeItem, bind at 1, lift.
  destruct (ToString key) as [name|e]; [|reflexivity].
  apply (write_keeps_cookie o f); assumption.
Qed.

Lemma clear_loop_keeps_cookie {H} (o : options H) f cookies :
  options_write o = Some f -> keeps_cookie f ->
  forall w,
    doc_cookie (world_heap (snd (clear_loop o cookies w))) = doc_cookie (world_heap w).
Proof.
  intros Ew Hf. induction cookies as [|cookie rest IH]; intros w; [reflexivity|].
  cbn [clear_loop]. unfold bind at 1, lift.
  destruct (decodeURIComponent _) as [name|e]; [|reflexivity].
  unfold bind at 1.
  pose proof (removeItem_keeps_cookie o f (VStr name) w Ew Hf) as Hr.
  destruct (removeItem o (VStr name) w) as [[r|e] w1]; cbn [snd] in Hr |- *.
  - rewrite IH. exact Hr.
  - exact Hr.
Qed.

(** X9.  With a [write] hook the library never assigns [doc.cookie]
    itself: when the hook leaves the line alone, so do [setItem],
    [removeItem] and [clear]. *)
Theorem write_hook_owns_the_store {H} (o : options H)
    (f : jsstring -> meta -> hook H jsval) (key value opts : jsval) (w : world H) :
  options_read o = None ->
  options_write o = Some f ->
  keeps_cookie f ->
  doc_cookie (world_heap (snd (setItem o key value opts w))) = doc_cookie (world_heap w)
  /\ doc_cookie (world_heap (snd (removeItem o key w))) = doc_cookie (world_heap w)
  /\ doc_cookie (world_heap (snd (clear o w))) = doc_cookie (world_heap w).
Proof.
  intros Hr Ew Hf. split; [|split].
  - apply (setItem_keeps_cookie o f); assumption.
  - apply (removeItem_keeps_cookie o f); assumption.
  - unfold clear, read. rewrite Hr.
    apply (clear_loop_keeps_cookie o f _ Ew Hf w).
Qed.

Lemma write_hook_owns_the_store_witness :
  doc_cookie (world_heap (snd (setItem collecting (VStr (js "a")) (VStr (js "9")) VUndefined
                                 (seeded (js "a=1; b=2") []))))
  = js "a=1; b=2"
  /\ doc_cookie (world_heap (snd (removeItem collecting (VStr (js "a"))
                                    (seeded (js "a=1; b=2") []))))
     = js "a=1; b=2"
  /\ doc_cookie (world_heap (snd (clear collecting (seeded (js "a=1; b=2") []))))
     = js "a=1; b=2".
Proof.
  apply (write_hook_owns_the_store collecting collect (VStr (js "a")) (VStr (js "9"))
           VUndefined (seeded (js "a=1; b=2") [])).
  - reflexivity.
  - reflexivity.
  - intros cookie m hp. reflexivity.
Defined.

(** X10.  When the key or the value has an unpaired surrogate, [setItem]
    throws a URIError before it looks at [opts] or calls [write]: the
    world is as before. *)
Theorem setItem_unpaired_surrogate {H} (o : options H) (k v : jsstring)
    (opts : jsval) (w : world H) :
  well_formed k = false \/ well_formed v = false ->
  setItem o (VStr k) (VStr v) opts w = (Throw URIError, w).
Proof.
  intros Hill. unfold setItem.
  change (typeof (VStr k)) with (js "string").
  change (typeof (VStr v)) with (js "string").
  rewrite jsstring_eqb_refl. cbn [negb orb].
  unfold encodeURIComponent. cbn [ToString prim_to_string cbind].
  unfold bind, lift.
  destruct (well_formed v) eqn:Wv.
  - destruct Hill as [Wk|]; [|discriminate].
    destruct (Encode_accepts v Wv) as [ev ->].
    rewrite (Encode_ill_formed k Wk). reflexivity.
  - rewrite (Encode_ill_formed v Wv). reflexivity.
Qed.

Lemma setItem_unpaired_surrogate_witness :
  (well_formed [56320; 97] = false \/ well_formed (js "v") = false)
  /\ setItem collecting (VStr [56320; 97]) (VStr (js "v")) VUndefined (seeded (js "a=1") [])
     = (Throw URIError, seeded (js "a=1") []).
Proof.
  assert (Hill : well_formed [56320; 97] = false \/ well_formed (js "v") = false)
    by (left; reflexivity).
  split; [exact Hill|].
  exact (setItem_unpaired_surrogate collecting [56320; 97] (js "v") VUndefined
           (seeded (js "a=1") []) Hill).
Defined.

(** X11.  A truthy [opts] that is not an object (a string, a number,
    [true]) makes [setItem] throw a TypeError at ['expires' in opts],
    before any call of [write]. *)
Theorem setItem_primitive_opts {H} (o : options H) (k v : jsstring) (p : prim) (w : world H) :
  well_formed k = true -> well_formed v = true ->
  ToBoolean (VPrim p) = true ->
  setItem o (VStr k) (VStr v) (VPrim p) w = (Throw TypeError, w).
Proof.
  intros Wk Wv Hp.
  destruct (Encode_accepts k Wk) as [ek Ek].
  destruct (Encode_accepts v Wv) as [ev Ev].
  unfold setItem.
  change (typeof (VStr k)) with (js "string").
  change (typeof (VStr v)) with (js "string").
  rewrite jsstring_eqb_refl, Hp. cbn [negb orb].
  unfold encodeURIComponent. cbn [ToString prim_to_string cbind].
  rewrite Ev, Ek. reflexivity.
Qed.

Lemma setItem_primitive_opts_witness :
  setItem collecting (VStr (js "k")) (VStr (js "v")) (VStr (js "secure")) (seeded (js "a=1") [])
  = (Throw TypeError, seeded (js "a=1") []).
Proof.
  apply setItem_primitive_opts; reflexivity.
Defined.

(** X14.  [setItem] returns what [write] returns: the result of the hook,
    or, without a hook, the formatted cookie, which is then [doc.cookie]. *)
Theorem setItem_returns_cookie {H} (o : options H) (w : world H) (k v : jsstring)
    (props : list (jsstring * prim)) :
  well_formed k = true -> well_formed v = true ->
  exists cookie m,
    write_calls (snd (setItem o (VStr k) (VStr v) (VObj props) w))
    = write_calls w ++ [(cookie, m)]
    /\ match options_write o with
       | Some f =>
           fst (setItem o (VStr k) (VStr v) (VObj props) w) = fst (f cookie m (world_heap w))
           /\ world_heap (snd (setItem o (VStr k) (VStr v) (VObj props) w))
              = snd (f cookie m (world_heap w))
       | None =>
           fst (setItem o (VStr k) (VStr v) (VObj props) w) = Return (VStr cookie)
           /\ doc_cookie (world_heap (snd (setItem o (VStr k) (VStr v) (VObj props) w)))
              = cookie
       end.
Proof.
  intros Wk Wv.
  destruct (Encode_accepts k Wk) as [ek Ek].
  destruct (Encode_accepts v Wv) as [ev Ev].
  rewrite (setItem_strings o k v (VObj props) props ek ev Ek Ev eq_refl).
  eexists. eexists.
  destruct (options_write o) as [f|] eqn:Ew.
  - rewrite (write_hooked o f) by assumption. cbn. auto.
  - rewrite write_default by assumption. cbn. auto.
Qed.

Lemma setItem_returns_cookie_witness :
  exists cookie m,
    write_calls (snd (setItem no_hooks (VStr (js "k")) (VStr (js "v"))
                        (VObj [(js "path", PStr (js "/"))]) (seeded [] tt)))
    = [] ++ [(cookie, m)]
    /\ fst (setItem no_hooks (VStr (js "k")) (VStr (js "v"))
              (VObj [(js "path", PStr (js "/"))]) (seeded [] tt)) = Return (VStr cookie)
    /\ doc_cookie (world_heap (snd (setItem no_hooks (VStr (js "k")) (VStr (js "v"))
                                      (VObj [(js "path", PStr (js "/"))]) (seeded [] tt))))
       = cookie.
Proof.
  apply (setItem_returns_cookie no_hooks (seeded [] tt) (js "k") (js "v")
           [(js "path", PStr (js "/"))]); reflexivity.
Defined.

Lemma first_equals (cookie : jsstring) :
  In 61 cookie ->
  exists name value, cookie = name ++ 61 :: value /\ Forall (fun c => c <> 61) name.
Proof.
  induction cookie as [|c cookie IH]; [intros []|].
  destruct (Z.eq_dec c 61) as [->|Hc].
  - intros _. exists [], cookie. split; [reflexivity|constructor].
  - intros [E|HIn]; [congruence|].
    destruct (IH HIn) as (name & value & -> & Hname).
    exists (c :: name), value. split; [reflexivity|]. constructor; assumption.
Qed.

Lemma before_equals_whole cookie :
  Forall (fun c => c <> 61) cookie -> before_equals cookie = cookie.
Proof.
  induction 1 as [|c cookie Hc _ IH]; [reflexivity|].
  cbn [before_equals]. destruct (Z.eqb_spec c 61); [contradiction|].
  rewrite IH. reflexivity.
Qed.

Lemma not_In_Forall (cookie : jsstring) :
  ~ In 61 cookie -> Forall (fun c => c <> 61) cookie.
Proof.
  intros Hn. apply Forall_forall. intros c Hc ->. contradiction.
Qed.

(** X15.  [getItem] cuts the name at [indexOf('=')] and [clear] takes
    [split('=')[0]]: the two read the same raw name off an entry exactly
    when the entry has an [=] in it or is empty. *)
Theorem getItem_clear_same_name (cookie : jsstring) :
  VStr (slice cookie 0 (Some (indexOf cookie (js "="))))
  = first_element (split cookie (js "="))
  <-> In 61 cookie \/ cookie = [].
Proof.
  rewrite first_element_split. split.
  - intros E. destruct (in_dec Z.eq_dec 61 cookie) as [HIn|Hn]; [left; exact HIn|].
    right. apply not_In_Forall in Hn.
    destruct cookie as [|c0 cookie0]; [reflexivity|]. exfalso.
    destruct (@exists_last _ (c0 :: cookie0)) as (s & c & Es); [discriminate|].
    rewrite Es in E, Hn. unfold indexOf in E.
    rewrite index_from_missing, slice_drop_last, before_equals_whole in E by assumption.
    injection E as E. apply (f_equal (@length _)) in E.
    rewrite length_app in E. cbn in E. lia.
  - intros [HIn| ->]; [|reflexivity].
    destruct (first_equals cookie HIn) as (name & value & -> & Hname).
    unfold indexOf. rewrite index_from_found by assumption. rewrite Z.add_0_l.
    rewrite slice_before, before_equals_app by assumption. reflexivity.
Qed.

